(** * The header script of the site theme, [site/theme/js/header.js]

    The script is one immediately invoked function.  It looks a handful of
    elements up by class name, registers click, keydown and window
    listeners, and every listener edits class lists, [aria-expanded]
    attributes and one inline height.  The development embeds the document
    as a tree of elements, the script's statements as a small state and
    exception monad over that tree, and proves the properties of the
    specification about the listeners. *)

From stdpp Require Import gmap strings list pretty.

Set Warnings "-clear-no-such-hyp".

(** ** The document tree *)

Module Dom.

(** What an element carries besides its children.  [localName] is the
    element's name ([html], [body], [li], ...), [classList] the token set
    behind [Element.classList], and [style_height] the inline
    [style.height] (the empty string when it is not set).  [attributes]
    holds the content attributes behind [getAttribute]/[setAttribute]
    other than [class] and [style], which the browser keeps in step with
    the class list and the inline style; the script reads [href] and
    writes [aria-expanded]. *)
Record props := Props {
  localName : string;
  classList : gset string;
  attributes : gmap string string;
  style_height : string
}.

#[local] Unset Elimination Schemes.
Inductive element := Element { own : props; children : list element }.
#[local] Set Elimination Schemes.

(** An element is named by its position: its index among its siblings,
    followed by the position of its parent.  The root element has position
    [[]].  Two references are the same object ([===]) exactly when the
    positions are equal. *)
Abbreviation position := (list nat).

Fixpoint descend (e : element) (path : list nat) : option element :=
  match path with
  | [] => Some e
  | i :: path' => children e !! i ≫= λ c, descend c path'
  end.

Definition node (d : element) (p : position) : option element :=
  descend d (reverse p).

Definition props_at (d : element) (p : position) : option props :=
  own <$> node d p.

Fixpoint update_down (f : props → props) (path : list nat) (e : element)
    : element :=
  match path with
  | [] => Element (f (own e)) (children e)
  | i :: path' => Element (own e) (alter (update_down f path') i (children e))
  end.

Definition update (f : props → props) (p : position) (d : element) : element :=
  update_down f (reverse p) d.

(** Root-to-node paths of all elements of a tree, in document order. *)
Fixpoint paths (e : element) : list (list nat) :=
  [] :: @mjoin list _ _ (imap (λ i ps, (i ::.) <$> ps) (paths <$> children e)).

Definition elements (d : element) : list position :=
  reverse <$> paths d.

(** [Node.parentElement]: null at the root element only. *)
Definition parentElement (p : position) : option position :=
  match p with
  | [] => None
  | _ :: up => Some up
  end.

Definition is_descendant (q p : position) : bool :=
  bool_decide (p `suffix_of` q) && negb (bool_decide (p = q)).

(** *** Reading an element *)

Definition has_class (d : element) (p : position) (c : string) : bool :=
  match props_at d p with
  | Some pr => bool_decide (c ∈ classList pr)
  | None => false
  end.

Definition get_attribute (d : element) (p : position) (a : string)
    : option string :=
  props_at d p ≫= λ pr, attributes pr !! a.

Definition get_style_height (d : element) (p : position) : option string :=
  style_height <$> props_at d p.

Definition has_tag (d : element) (p : position) (t : string) : bool :=
  match props_at d p with
  | Some pr => bool_decide (localName pr = t)
  | None => false
  end.

(** *** Selectors *)

(** The child elements of [p], in order. *)
Definition childElements (d : element) (p : position) : list position :=
  match node d p with
  | Some e => imap (λ i _, i :: p) (children e)
  | None => []
  end.

(** [Element.closest('.c')]: the element itself or its nearest ancestor
    carrying class [c]. *)
Fixpoint closest (d : element) (c : string) (p : position) : option position :=
  if has_class d p c then Some p
  else match p with
       | [] => None
       | _ :: up => closest d c up
       end.

(** [document.querySelectorAll('.c')] and [document.querySelector('.c')]. *)
Definition document_querySelectorAll (d : element) (c : string)
    : list position :=
  filter (λ q, has_class d q c) (elements d).

Definition document_querySelector (d : element) (c : string)
    : option position :=
  head (document_querySelectorAll d c).

(** [document.querySelectorAll('.pc > .c')]. *)
Definition child_of_class (d : element) (pc : string) (q : position) : bool :=
  match parentElement q with
  | Some up => has_class d up pc
  | None => false
  end.

Definition document_querySelectorAll_child (d : element) (pc c : string)
    : list position :=
  filter (λ q, child_of_class d pc q && has_class d q c) (elements d).

(** [p.querySelectorAll('.c')] and [p.querySelector('.c')]: the descendants
    of [p] (at any depth, [p] itself excluded) carrying class [c], in
    document order. *)
Definition querySelectorAll (d : element) (p : position) (c : string)
    : list position :=
  filter (λ q, is_descendant q p && has_class d q c) (elements d).

Definition querySelector (d : element) (p : position) (c : string)
    : option position :=
  head (querySelectorAll d p c).

(** [document.body]: the first [body] or [frameset] child of the [html]
    root element, null when there is none. *)
Definition document_body (d : element) : option position :=
  if has_tag d [] "html" then
    head (filter (λ q, has_tag d q "body" || has_tag d q "frameset")
                 (childElements d []))
  else None.

(** *** Writing an element *)

Definition set_classList (f : gset string → gset string) (pr : props) : props :=
  Props (localName pr) (f (classList pr)) (attributes pr) (style_height pr).

Definition set_attributes (f : gmap string string → gmap string string)
    (pr : props) : props :=
  Props (localName pr) (classList pr) (f (attributes pr)) (style_height pr).

Definition set_style_height (h : string) (pr : props) : props :=
  Props (localName pr) (classList pr) (attributes pr) h.

Definition classList_add (p : position) (c : string) : element → element :=
  update (set_classList (λ cs, cs ∪ {[c]})) p.

Definition classList_remove (p : position) (c : string) : element → element :=
  update (set_classList (λ cs, cs ∖ {[c]})) p.

Definition setAttribute (p : position) (a v : string) : element → element :=
  update (set_attributes (λ m, <[a := v]> m)) p.

Definition style_set_height (p : position) (h : string) : element → element :=
  update (set_style_height h) p.

End Dom.

(** ** Statements: state and exceptions *)

Module Script.

(** How a statement completes: normally with a value, or by throwing.  The
    only exception the script can raise is the [TypeError] of a property
    read on [null]. *)
Inductive completion (A : Type) :=
| Normal (a : A)
| Throw (error : string).
Arguments Normal {A} a.
Arguments Throw {A} error.

(** A statement over a state [S] yields a completion and the state it
    leaves behind; what was written before a throw stays written. *)
Definition script (S A : Type) : Type := S → completion A * S.

#[export] Instance script_ret {S} : MRet (script S) :=
  λ A a s, (Normal a, s).

#[export] Instance script_bind {S} : MBind (script S) :=
  λ A B f m s,
    match m s with
    | (Normal a, s') => f a s'
    | (Throw e, s') => (Throw e, s')
    end.

Definition throw {S A} (e : string) : script S A := λ s, (Throw e, s).

Definition gets {S A} (f : S → A) : script S A := λ s, (Normal (f s), s).

Definition modify {S} (f : S → S) : script S () := λ s, (Normal (), f s).

(** Reading a property of [o]: a [TypeError] when [o] is null. *)
Definition deref {S A} (o : option A) : script S A :=
  match o with
  | Some a => mret a
  | None => throw "TypeError"
  end.

(** [Array.prototype.forEach] / [NodeList.prototype.forEach]. *)
Fixpoint forEach {S A} (l : list A) (f : A → script S ()) : script S () :=
  match l with
  | [] => mret ()
  | x :: l' => f x;; forEach l' f
  end.

(** [if (o) ...] on a reference that may be null. *)
Definition when_some {S A} (o : option A) (f : A → script S ())
    : script S () :=
  match o with
  | Some a => f a
  | None => mret ()
  end.

(** The state a statement leaves, and whether it completed normally.  A
    listener that throws is reported by the browser and the page goes on
    from the state the listener left. *)
Definition exec {S A} (m : script S A) (s : S) : S := (m s).2.

Definition completes {S A} (m : script S A) (s : S) : bool :=
  match (m s).1 with
  | Normal _ => true
  | Throw _ => false
  end.

End Script.

(** ** The script *)

Module Header.
Import Dom Script.

(** The element references the script takes at load time (lines 11-15). *)
Record bindings := Bindings {
  mnavOpen : option position;
  mnavClose : option position;
  mnavOverlay : option position;
  mnavToggles : list position;
  mnavParentLinks : list position
}.

Definition bind_elements (d : element) : bindings := {|
  mnavOpen := document_querySelector d "mnav__open";
  mnavClose := document_querySelector d "mnav__close";
  mnavOverlay := document_querySelector d "mnav__overlay";
  mnavToggles := document_querySelectorAll d "mnav__menu__toggle";
  mnavParentLinks :=
    document_querySelectorAll_child d "mnav__menu__item--parent"
                                      "mnav__menu__link"
|}.

(** [e.preventDefault()] cancels the browser's default action for the
    event; it writes nothing to the document. *)
Definition preventDefault : script element () := mret ().

(** [el.classList.toggle(c)]: removes [c] and answers [false] when it is
    there, adds it and answers [true] when it is not. *)
Definition classList_toggle (p : position) (c : string) : script element bool :=
  present ← gets (λ d, has_class d p c);
  if (present : bool) then modify (classList_remove p c);; mret false
  else modify (classList_add p c);; mret true.

(** *** Mobile navigation (lines 17-43) *)

Definition openMobileNav (b : bindings) : script element () :=
  body ← gets document_body ≫= deref;
  modify (classList_add body "mnav-active");;
  when_some (mnavOpen b) (λ o, modify (setAttribute o "aria-expanded" "true")).

Definition closeMobileNav (b : bindings) : script element () :=
  body ← gets document_body ≫= deref;
  modify (classList_remove body "mnav-active");;
  when_some (mnavOpen b) (λ o, modify (setAttribute o "aria-expanded" "false")).

Definition open_listener (b : bindings) : script element () :=
  preventDefault;; openMobileNav b.

Definition close_listener (b : bindings) : script element () :=
  preventDefault;; closeMobileNav b.

Definition overlay_listener (b : bindings) : script element () :=
  closeMobileNav b.

(** *** Submenu toggle (lines 46-66) *)

Definition collapse_sibling (item sibling : position) : script element () :=
  if decide (sibling ≠ item) then
    modify (classList_remove sibling "mnav__menu__item--expanded");;
    siblingToggle ← gets (λ d, querySelector d sibling "mnav__menu__toggle");
    when_some siblingToggle (λ t, modify (setAttribute t "aria-expanded" "false"))
  else mret ().

Definition toggle_listener (toggle : position) : script element () :=
  preventDefault;;
  item ← gets (λ d, closest d "mnav__menu__item" toggle);
  when_some item (λ item,
    parent ← deref (parentElement item);
    siblings ← gets (λ d, querySelectorAll d parent "mnav__menu__item--expanded");
    forEach siblings (collapse_sibling item);;
    isExpanded ← classList_toggle item "mnav__menu__item--expanded";
    modify (setAttribute toggle "aria-expanded"
                         (if (isExpanded : bool) then "true" else "false"))).

(** *** Parent links (lines 69-78) *)

(** [toggle.click()]: the click listener of [toggle] runs if the script
    gave it one, that is, if [toggle] is one of [mnavToggles].  That the
    browser refuses the click on a disabled control, and lets the event
    bubble to listeners on ancestors, is not part of this function; see
    [click_runs_listener_alone] below. *)
Definition click (b : bindings) (toggle : position) : script element () :=
  if decide (toggle ∈ mnavToggles b) then toggle_listener toggle else mret ().

Definition link_listener (b : bindings) (link : position) : script element () :=
  preventDefault;;
  item ← gets (λ d, closest d "mnav__menu__item" link);
  toggle ← match item with
           | Some item => gets (λ d, querySelector d item "mnav__menu__toggle")
           | None => mret None
           end;
  when_some toggle (click b).

(** *** Escape key (lines 81-85) *)

Definition keydown_listener (b : bindings) (key : string) : script element () :=
  if decide (key = "Escape") then
    body ← gets document_body ≫= deref;
    active ← gets (λ d, has_class d body "mnav-active");
    if (active : bool) then closeMobileNav b else mret ()
  else mret ().

(** *** Sticky header (lines 88-116) and the load-time statements

    Numbers are the browser's: [gt] is [>] on them, [number_to_string] the
    conversion that [+ 'px'] applies, and [bounding_height] the height
    that [getBoundingClientRect] measures for an element at load time. *)
Section Sticky.

Context {number : Type}.
Variable gt : number → number → bool.
Variable number_to_string : number → string.
Variable bounding_height : element → position → number.

(** [pageYOffset] is [window.pageYOffset] at the time of the call. *)
Definition handleStickyHeader (headerSticky : position) (height : number)
    (pageYOffset : number) : script element () :=
  if gt pageYOffset height then
    modify (style_set_height headerSticky (number_to_string height +:+ "px"));;
    modify (classList_add headerSticky "header--sticky-active");;
    modify (classList_remove headerSticky "header--sticky-inactive")
  else
    active ← gets (λ d, has_class d headerSticky "header--sticky-active");
    (if (active : bool)
     then modify (classList_add headerSticky "header--sticky-inactive")
     else mret ());;
    modify (style_set_height headerSticky "");;
    modify (classList_remove headerSticky "header--sticky-active").

(** A registered listener: where it listens and what it closes over. *)
Inductive listener :=
| OpenClick (target : position)
| CloseClick (target : position)
| OverlayClick (target : position)
| ToggleClick (toggle : position)
| LinkClick (link : position)
| DocumentKeydown
| WindowSticky (type : string) (headerSticky : position) (height : number).

Record page := Page { listeners : list listener; document : element }.

Definition addEventListener (l : listener) : script page () :=
  modify (λ pg, Page (listeners pg ++ [l]) (document pg)).

Definition on_document {A} (m : script element A) : script page A :=
  λ pg, let '(r, d) := m (document pg) in (r, Page (listeners pg) d).

(** The body of the immediately invoked function. *)
Definition init (pageYOffset : number) : script page () :=
  b ← gets (λ pg, bind_elements (document pg));
  when_some (mnavOpen b) (λ o, addEventListener (OpenClick o));;
  when_some (mnavClose b) (λ c, addEventListener (CloseClick c));;
  when_some (mnavOverlay b) (λ o, addEventListener (OverlayClick o));;
  forEach (mnavToggles b) (λ toggle, addEventListener (ToggleClick toggle));;
  forEach (mnavParentLinks b) (λ link,
    href ← gets (λ pg, get_attribute (document pg) link "href");
    if decide (href = Some "javascript:;")
    then addEventListener (LinkClick link)
    else mret ());;
  addEventListener DocumentKeydown;;
  headerStickyElement ←
    gets (λ pg, document_querySelector (document pg) "header__sticky-element");
  when_some headerStickyElement (λ _,
    headerSticky ←
      gets (λ pg, document_querySelector (document pg) "header--sticky");
    headerSticky ← deref headerSticky;
    height ← gets (λ pg, bounding_height (document pg) headerSticky);
    forEach ["resize"; "scroll"; "load"] (λ eventType,
      addEventListener (WindowSticky eventType headerSticky height));;
    on_document (handleStickyHeader headerSticky height pageYOffset)).

End Sticky.

(** *** Events

    An event names the listener it reaches, with what the listener reads
    from it.  How the browser routes one user action to several listeners
    is outside this script. *)
Inductive nav_event :=
| OpenTriggerClick
| CloseTriggerClick
| OverlayTriggerClick
| EscapeKey.

#[export] Instance nav_event_eq_dec : EqDecision nav_event.
Proof. solve_decision. Defined.

Definition nav_listener (b : bindings) (ev : nav_event) : script element () :=
  match ev with
  | OpenTriggerClick => open_listener b
  | CloseTriggerClick => close_listener b
  | OverlayTriggerClick => overlay_listener b
  | EscapeKey => keydown_listener b "Escape"
  end.

Inductive menu_event :=
| ToggleClicked (toggle : position)
| ParentLinkClicked (link : position).

Definition menu_listener (b : bindings) (ev : menu_event) : script element () :=
  match ev with
  | ToggleClicked toggle => click b toggle
  | ParentLinkClicked link => link_listener b link
  end.

(** The document after the events [evs] arrived one after the other. *)
Definition run {E} (listener : E → script element ()) (evs : list E)
    (d : element) : element :=
  foldl (λ d ev, exec (listener ev) d) d evs.

End Header.

(** ** Sample documents *)

Module Samples.
Import Dom Script Header.

Definition el (tag : string) (classes : list string)
    (attrs : list (string * string)) (cs : list element) : element :=
  Element (Props tag (list_to_set classes) (list_to_map attrs) "") cs.

Definition menu_link : element :=
  el "a" ["mnav__menu__link"] [("href", "javascript:;")] [].

Definition menu_toggle : element :=
  el "button" ["mnav__menu__toggle"] [("aria-expanded", "false")] [].

(** A menu item: its link, its toggle, then its submenu. *)
Definition menu_item (modifiers : list string) (submenu : list element)
    : element :=
  el "li" ("mnav__menu__item" :: modifiers) []
     [menu_link; menu_toggle; el "ul" ["mnav__menu"] [] submenu].

(** A page with a sticky header, the mobile navigation controls and a
    menu of two top-level items; the first has two sub-items, of which the
    first has a sub-item of its own. *)
Definition site : element :=
  el "html" [] [] [
    el "head" [] [] [];
    el "body" [] [] [
      el "header" ["header"; "header--sticky"] []
         [el "div" ["header__sticky-element"] [] []];
      el "a" ["mnav__open"] [("aria-expanded", "false")] [];
      el "div" ["mnav__overlay"] [] [];
      el "nav" ["mnav"] [] [
        el "a" ["mnav__close"] [] [];
        el "ul" ["mnav__menu"] [] [
          menu_item ["mnav__menu__item--parent"] [
            menu_item ["mnav__menu__item--parent"] [menu_item [] []];
            menu_item [] []];
          menu_item ["mnav__menu__item--parent"] [menu_item [] []]]]]].

Definition body : position := [1].
Definition header : position := [0; 1].
Definition menu : position := [1; 3; 1].
Definition item_A : position := 0 :: menu.
Definition item_B : position := 1 :: menu.
Definition link_A : position := 0 :: item_A.
Definition toggle_A : position := 1 :: item_A.
Definition toggle_B : position := 1 :: item_B.
Definition item_A1 : position := 0 :: 2 :: item_A.
Definition item_A2 : position := 1 :: 2 :: item_A.
Definition toggle_A1 : position := 1 :: item_A1.
Definition toggle_A2 : position := 1 :: item_A2.

(** A menu whose first item carries its toggle after its submenu.  The
    first item is expanded, and every toggle mirrors its item. *)
Definition late_toggle_site : element :=
  el "html" [] [] [
    el "head" [] [] [];
    el "body" [] [] [
      el "ul" ["mnav__menu"] [] [
        el "li" ["mnav__menu__item"; "mnav__menu__item--expanded"] [] [
          el "ul" ["mnav__menu"] [] [
            el "li" ["mnav__menu__item"] [] [menu_toggle]];
          el "button" ["mnav__menu__toggle"] [("aria-expanded", "true")] []];
        el "li" ["mnav__menu__item"] [] [menu_toggle]]]].

Definition late_item : position := [0; 0; 1].
Definition late_toggle : position := 1 :: late_item.
Definition late_other_toggle : position := [0; 1; 0; 1].




(** A page with the sticky marker element and no sticky header. *)
Definition marker_only_site : element :=
  el "html" [] [] [
    el "head" [] [] [];
    el "body" [] [] [
      el "div" ["header__sticky-element"] [] [];
      el "a" ["mnav__open"] [] []]].

(** A document without a body. *)
Definition bodyless_site : element :=
  el "html" [] [] [el "head" [] [] []].

(** A page whose root element is itself a menu item. *)
Definition root_item_site : element :=
  el "html" ["mnav__menu__item"] [] [
    el "head" [] [] [];
    el "body" [] [] [menu_toggle]].

(** Whole pixels as numbers: [>] on integers and their decimal notation. *)
Definition handleSticky : position → Z → Z → script element () :=
  handleStickyHeader Z.gtb pretty.

(** Loading a page on which every element measures 80 pixels. *)
Definition load (pageYOffset : Z) (d : element) : completion () * page :=
  init Z.gtb pretty (λ _ _, 80%Z) pageYOffset (Page [] d).

End Samples.

(** ** The listeners as functions, and the properties to prove *)

Module Denotation.
Import Dom Script Header.

Abbreviation item_class := "mnav__menu__item".
Abbreviation expanded := "mnav__menu__item--expanded".
Abbreviation toggle_class := "mnav__menu__toggle".
Abbreviation aria := "aria-expanded".
Abbreviation sticky_active := "header--sticky-active".
Abbreviation sticky_inactive := "header--sticky-inactive".

(** The documents the listeners leave, written as functions; the facts
    below prove each equal to the state of its listener.

    [collapse] is the body of the loop over the expanded elements,
    [flip] the toggle of the item with the update of its toggle, and
    [toggled] the whole click once the item and its parent are found. *)
Definition collapse (item : position) (d : element) (sibling : position)
    : element :=
  if decide (sibling ≠ item) then
    let d1 := classList_remove sibling expanded d in
    match querySelector d1 sibling toggle_class with
    | Some t => setAttribute t aria "false" d1
    | None => d1
    end
  else d.

Definition flip (toggle item : position) (d : element) : element :=
  if has_class d item expanded
  then setAttribute toggle aria "false" (classList_remove item expanded d)
  else setAttribute toggle aria "true" (classList_add item expanded d).

Definition toggled (toggle item parent : position) (d : element) : element :=
  flip toggle item
       (foldl (collapse item) d (querySelectorAll d parent expanded)).

(** [openMobileNav] and [closeMobileNav] once [document.body] is known. *)
Definition set_trigger (b : bindings) (v : string) (d : element) : element :=
  match mnavOpen b with
  | Some o => setAttribute o aria v d
  | None => d
  end.

Definition opened (b : bindings) (body : position) (d : element) : element :=
  set_trigger b "true" (classList_add body "mnav-active" d).

Definition closed (b : bindings) (body : position) (d : element) : element :=
  set_trigger b "false" (classList_remove body "mnav-active" d).

(** The two branches of [handleStickyHeader]. *)
Definition stuck (height_px : string) (headerSticky : position) (d : element)
    : element :=
  classList_remove headerSticky sticky_inactive
    (classList_add headerSticky sticky_active
       (style_set_height headerSticky height_px d)).

Definition unstuck (headerSticky : position) (d : element) : element :=
  classList_remove headerSticky sticky_active
    (style_set_height headerSticky ""
       (if has_class d headerSticky sticky_active
        then classList_add headerSticky sticky_inactive d
        else d)).

(** [d'] has the shape and the tags of [d], and the same classes except
    possibly [c0]. *)
Record same_markup (c0 : string) (d d' : element) : Prop := SameMarkup {
  sm_elements : elements d' = elements d;
  sm_children : ∀ q, childElements d' q = childElements d q;
  sm_node : ∀ q, is_Some (node d' q) ↔ is_Some (node d q);
  sm_tag : ∀ q t, has_tag d' q t = has_tag d q t;
  sm_class : ∀ q c, c ≠ c0 → has_class d' q c = has_class d q c
}.

(** [collapses d item u s]: the loop body, run for [s], writes
    [aria-expanded] on [u]. *)
Definition collapses (d : element) (item u s : position) : Prop :=
  s ≠ item ∧ querySelector d s toggle_class = Some u.

#[export] Instance collapses_dec d item u s : Decision (collapses d item u s).
Proof. unfold collapses. apply _. Defined.

End Denotation.

Module Spec.
Import Dom Script Header Denotation.

(** The menu items among the children of [parent] that carry the expanded
    class: the expanded siblings of one nesting level. *)
Definition expanded_siblings (d : element) (parent : position)
    : list position :=
  filter (λ q, has_class d q item_class && has_class d q expanded)
         (childElements d parent).

(** A toggle mirrors its item: its [aria-expanded] is ["true"] when the
    item it belongs to is expanded and ["false"] when it is not. *)
Definition toggle_mirrors (d : element) (u : position) : bool :=
  if has_class d u toggle_class then
    match closest d item_class u with
    | Some item =>
        bool_decide (get_attribute d u aria =
                     Some (if has_class d item expanded then "true" else "false"))
    | None => true
    end
  else true.

Definition mirrors (d : element) : bool :=
  forallb (toggle_mirrors d) (elements d).

(** The markup of the menu: the toggle of an item is the first toggle
    inside the item, and only menu items carry the expanded class. *)
Definition own_toggle_first (d : element) (u : position) : bool :=
  if has_class d u toggle_class then
    match closest d item_class u with
    | Some item => bool_decide (querySelector d item toggle_class = Some u)
    | None => true
    end
  else true.

Definition expanded_on_item (d : element) (q : position) : bool :=
  implb (has_class d q expanded) (has_class d q item_class).

Definition menu_markup (d : element) : bool :=
  forallb (λ q, own_toggle_first d q && expanded_on_item d q) (elements d).

(** The listeners of the mobile navigation, the menu and the keyboard:
    one per control that is on the page, and the keydown listener. *)
Definition nav_listeners {number : Type} (d : element)
    : list (@listener number) :=
  let b := bind_elements d in
  option_list (OpenClick <$> mnavOpen b) ++
  option_list (CloseClick <$> mnavClose b) ++
  option_list (OverlayClick <$> mnavOverlay b) ++
  (ToggleClick <$> mnavToggles b) ++
  (LinkClick <$>
     filter (λ link, get_attribute d link "href" = Some "javascript:;")
            (mnavParentLinks b)) ++
  [DocumentKeydown].

(** The listeners of the sticky header, with the header and its height at
    load time. *)
Definition sticky_listeners {number : Type}
    (bounding_height : element → position → number) (d : element)
    : list (@listener number) :=
  match document_querySelector d "header__sticky-element",
        document_querySelector d "header--sticky" with
  | Some _, Some headerSticky =>
      (λ eventType,
         WindowSticky eventType headerSticky (bounding_height d headerSticky))
        <$> ["resize"; "scroll"; "load"]
  | _, _ => []
  end.

(** The sticky marker element is on the page and the sticky header is
    not. *)
Definition sticky_header_missing (d : element) : Prop :=
  is_Some (document_querySelector d "header__sticky-element") ∧
  document_querySelector d "header--sticky" = None.

(** The mobile-nav-open flag. *)
Definition nav_active (d : element) : bool :=
  match document_body d with
  | Some body => has_class d body "mnav-active"
  | None => false
  end.

(** Each event of a run with the flag as it was when the event arrived. *)
Fixpoint trace (b : bindings) (evs : list nav_event) (d : element)
    : list (nav_event * bool) :=
  match evs with
  | [] => []
  | ev :: evs' =>
      (ev, nav_active d) :: trace b evs' (exec (nav_listener b ev) d)
  end.

(** A close action: a close-trigger click, an overlay click, or Escape
    pressed while the flag was set. *)
Definition is_close (a : nav_event * bool) : bool :=
  match a.1 with
  | OpenTriggerClick => false
  | CloseTriggerClick | OverlayTriggerClick => true
  | EscapeKey => a.2
  end.

(** A relevant action: an open-trigger click or a close action. *)
Definition relevant (a : nav_event * bool) : bool :=
  match a.1 with
  | OpenTriggerClick => true
  | _ => is_close a
  end.

(** The most recent relevant action was an open-trigger click, and no
    close action came after it. *)
Definition open_is_most_recent (tr : list (nav_event * bool)) : Prop :=
  ∃ earlier flag later,
    tr = earlier ++ (OpenTriggerClick, flag) :: later ∧
    Forall (λ a, relevant a = false) later ∧
    Forall (λ a, is_close a = false) later.





End Spec.

(** ** All events, and what a listener leaves alone *)

Module Events.
Import Dom Script Header Denotation.

(** Everything that reaches a listener of the script: a click on one of
    the navigation controls or Escape, any other key, a click in the menu,
    and a resize, scroll or load of the window with the scroll offset at
    that time. *)
Inductive event {number : Type} :=
| Nav (ev : nav_event)
| Keydown (key : string)
| Menu (ev : menu_event)
| Window (pageYOffset : number).

Definition dispatch {number : Type} (gt : number → number → bool)
    (number_to_string : number → string) (b : bindings)
    (headerSticky : position) (height : number) (ev : event)
    : script element () :=
  match ev with
  | Nav ev => nav_listener b ev
  | Keydown key => keydown_listener b key
  | Menu ev => menu_listener b ev
  | Window pageYOffset =>
      handleStickyHeader gt number_to_string headerSticky height pageYOffset
  end.

(** The classes the script adds and removes. *)
Definition script_classes : list string :=
  ["mnav-active"; expanded; sticky_active; sticky_inactive].

(** [pr'] is [pr] except for the classes in [Cs], the attributes in [As]
    and, when [S] is set, the inline height. *)
Definition props_agree (Cs As : list string) (S : bool) (pr pr' : props)
    : Prop :=
  localName pr' = localName pr ∧
  (∀ c, c ∉ Cs → c ∈ classList pr' ↔ c ∈ classList pr) ∧
  (∀ a, a ∉ As → attributes pr' !! a = attributes pr !! a) ∧
  (S = false → style_height pr' = style_height pr).

(** [d'] has the elements of [d], each with the children it had and with
    its properties changed as [props_agree] allows. *)
Definition agree (Cs As : list string) (S : bool) (d d' : element) : Prop :=
  elements d' = elements d ∧
  (∀ q, childElements d' q = childElements d q) ∧
  (∀ q, option_Forall2 (props_agree Cs As S) (props_at d q) (props_at d' q)).

End Events.

(** ** Facts about the document tree *)

Module DomFacts.
Import Dom.

Lemma own_update_down f p e :
  own (update_down f p e) = if decide (p = []) then f (own e) else own e.
Proof. by destruct p. Qed.

Lemma length_children_update_down f p e :
  length (children (update_down f p e)) = length (children e).
Proof. destruct p; simpl; [done | by rewrite length_alter]. Qed.

(** Below the updated path the tree is as before; on the way to it, the
    subtree is the old one with the update applied further down. *)
Lemma descend_update_down f p q e :
  descend (update_down f p e) q =
    if decide (q `prefix_of` p)
    then update_down f (drop (length q) p) <$> descend e q
    else descend e q.
Proof.
  revert p e. induction q as [|j q IH]; intros p e.
  - case_decide as H; [done|]. destruct H. apply prefix_nil.
  - destruct p as [|i p]; cbn [descend update_down children].
    + case_decide as H; [|done]. by apply prefix_nil_inv in H.
    + destruct (decide (i = j)) as [->|Hij].
      * rewrite list_lookup_alter_eq. destruct (children e !! j) as [c|]; cbn.
        -- rewrite IH. repeat case_decide; try done.
           ++ exfalso. eauto using prefix_cons.
           ++ exfalso. eauto using prefix_cons_inv_2.
        -- by case_decide.
      * rewrite list_lookup_alter_ne by done.
        case_decide as H; [|done]. by apply prefix_cons_inv_1 in H.
Qed.

Lemma drop_length_prefix_nil (q p : list nat) :
  q `prefix_of` p → drop (length q) p = [] ↔ p = q.
Proof.
  intros [k ->]. rewrite drop_app_length. split; [intros ->|intros H].
  - by rewrite app_nil_r.
  - apply (f_equal length) in H. rewrite length_app in H.
    destruct k; [done | simpl in H; lia].
Qed.

Lemma props_at_update f p q d :
  props_at (update f p d) q =
    if decide (p = q) then f <$> props_at d q else props_at d q.
Proof.
  unfold props_at, node, update. rewrite descend_update_down.
  destruct (decide (reverse q `prefix_of` reverse p)) as [Hpre|Hpre].
  - rewrite <- option_fmap_compose.
    pose proof (drop_length_prefix_nil _ _ Hpre) as Hnil.
    destruct (descend d (reverse q)) as [e|]; cbn; [|by case_decide].
    rewrite own_update_down. repeat case_decide; try done.
    + destruct H0. by apply (inj reverse), Hnil.
    + subst. destruct H. by apply Hnil.
  - case_decide; [|done]. subst. by destruct Hpre.
Qed.

Lemma node_update_is_Some f p q d :
  is_Some (node (update f p d) q) ↔ is_Some (node d q).
Proof.
  unfold node, update. rewrite descend_update_down.
  case_decide; [|done]. by rewrite fmap_is_Some.
Qed.

Lemma childElements_update f p q d :
  childElements (update f p d) q = childElements d q.
Proof.
  unfold childElements, node, update. rewrite descend_update_down.
  case_decide; [|done]. destruct (descend d (reverse q)) as [e|]; cbn; [|done].
  apply list_eq. intros i. rewrite !list_lookup_imap.
  assert (is_Some (children (update_down f (drop (length (reverse q)) (reverse p)) e) !! i)
          ↔ is_Some (children e !! i)) as Hs.
  { by rewrite !lookup_lt_is_Some, length_children_update_down. }
  destruct (children e !! i) eqn:E1, (children (update_down f _ e) !! i) eqn:E2;
    cbn; try done.
  - destruct Hs as [_ Hs]. by destruct Hs as [? [=]].
  - destruct Hs as [Hs _]. by destruct Hs as [? [=]].
Qed.

Lemma paths_update_down f p e : paths (update_down f p e) = paths e.
Proof.
  revert e. induction p as [|i p IH]; intros [pr cs]; [done|].
  cbn [update_down paths children]. do 3 f_equal.
  apply list_eq. intros k. rewrite !list_lookup_fmap.
  destruct (decide (i = k)) as [->|Hik].
  - rewrite list_lookup_alter_eq. destruct (cs !! k); cbn; [|done].
    by rewrite IH.
  - by rewrite list_lookup_alter_ne.
Qed.

Lemma elements_update f p d : elements (update f p d) = elements d.
Proof. unfold elements, update. by rewrite paths_update_down. Qed.

(** The enumeration is complete: it lists exactly the positions at which
    there is an element. *)
Lemma elem_of_paths q e : q ∈ paths e ↔ is_Some (descend e q).
Proof.
  revert e. induction q as [|j q IH]; intros [pr cs].
  - cbn. split; [eauto | intros _; apply list_elem_of_here].
  - cbn [paths descend children]. rewrite elem_of_cons, list_elem_of_join.
    split.
    + intros [?|(l & Hq & Hl)]; [done|].
      apply elem_of_lookup_imap in Hl as (i & ps & -> & Hps).
      apply list_elem_of_fmap in Hq as (q' & [= <- <-] & Hq').
      rewrite list_lookup_fmap in Hps.
      destruct (cs !! j) as [c|]; simplify_eq/=. by apply IH.
    + intros Hs. right. destruct (cs !! j) as [c|] eqn:Hc; cbn in Hs;
        [|by destruct Hs].
      exists ((j ::.) <$> paths c). split.
      * apply list_elem_of_fmap_2. by apply IH.
      * apply elem_of_lookup_imap. exists j, (paths c). split; [done|].
        by rewrite list_lookup_fmap, Hc.
Qed.

Lemma descend_app e p q :
  descend e (p ++ q) = descend e p ≫= λ c, descend c q.
Proof.
  revert e. induction p as [|i p IH]; intros e; [done|].
  cbn. destruct (children e !! i); cbn; [apply IH | done].
Qed.

Lemma node_cons d i p : node d (i :: p) = node d p ≫= λ e, children e !! i.
Proof.
  unfold node. rewrite reverse_cons, descend_app.
  destruct (descend d (reverse p)) as [e|]; cbn; [|done].
  by destruct (children e !! i).
Qed.

Lemma childElements_is_element d p q :
  q ∈ childElements d p → is_Some (node d q).
Proof.
  unfold childElements. destruct (node d p) as [e|] eqn:He;
    [|by intros ?%elem_of_nil].
  intros (i & c & -> & Hc)%elem_of_lookup_imap.
  rewrite node_cons, He. cbn. by rewrite Hc.
Qed.

Lemma document_body_is_element d body :
  document_body d = Some body → is_Some (node d body).
Proof.
  unfold document_body. destruct (has_tag d [] "html"); [|done].
  intros [_ H]%head_Some_elem_of%list_elem_of_filter.
  by eapply childElements_is_element.
Qed.

Lemma elem_of_elements p d : p ∈ elements d ↔ is_Some (node d p).
Proof.
  unfold elements, node. rewrite <- elem_of_paths, list_elem_of_fmap. split.
  - intros (q & -> & Hq). by rewrite reverse_involutive.
  - intros Hp. exists (reverse p). by rewrite reverse_involutive.
Qed.

(** *** What a write changes for the readers *)

Lemma has_class_update f p q c d :
  has_class (update f p d) q c =
    match props_at d q with
    | Some pr => bool_decide (c ∈ classList (if decide (p = q) then f pr else pr))
    | None => false
    end.
Proof.
  unfold has_class. rewrite props_at_update.
  case_decide; destruct (props_at d q); done.
Qed.

Lemma get_attribute_update f p q a d :
  get_attribute (update f p d) q a =
    props_at d q ≫= λ pr, attributes (if decide (p = q) then f pr else pr) !! a.
Proof.
  unfold get_attribute. rewrite props_at_update.
  case_decide; destruct (props_at d q); done.
Qed.

Lemma get_style_height_update f p q d :
  get_style_height (update f p d) q =
    (λ pr, style_height (if decide (p = q) then f pr else pr)) <$> props_at d q.
Proof.
  unfold get_style_height. rewrite props_at_update.
  case_decide; destruct (props_at d q); done.
Qed.

Lemma has_tag_update f p q t d :
  (∀ pr, localName (f pr) = localName pr) →
  has_tag (update f p d) q t = has_tag d q t.
Proof.
  intros Hf. unfold has_tag. rewrite props_at_update.
  case_decide; destruct (props_at d q); cbn; by rewrite ?Hf.
Qed.

Lemma props_at_is_Some d p : is_Some (props_at d p) ↔ is_Some (node d p).
Proof. apply fmap_is_Some. Qed.

Lemma has_class_is_element d p c : has_class d p c = true → is_Some (node d p).
Proof.
  unfold has_class. intros H. apply props_at_is_Some.
  by destruct (props_at d p).
Qed.

Lemma has_class_add_eq p c d :
  is_Some (node d p) → has_class (classList_add p c d) p c = true.
Proof.
  intros [pr Hpr]%props_at_is_Some. unfold classList_add.
  rewrite has_class_update, Hpr. case_decide; [|done].
  apply bool_decide_eq_true. set_solver.
Qed.

Lemma has_class_add_ne p c q c' d :
  p ≠ q ∨ c ≠ c' →
  has_class (classList_add p c d) q c' = has_class d q c'.
Proof.
  intros Hne. unfold classList_add, has_class at 2. rewrite has_class_update.
  destruct (props_at d q) as [pr|]; [|done]. case_decide; [|done].
  apply bool_decide_ext. set_solver.
Qed.

Lemma has_class_add_mono p c q c' d :
  has_class d q c' = true → has_class (classList_add p c d) q c' = true.
Proof.
  unfold classList_add, has_class at 1. rewrite has_class_update.
  destruct (props_at d q) as [pr|]; [|done].
  rewrite !bool_decide_eq_true. case_decide; set_solver.
Qed.

Lemma has_class_remove_eq p c d : has_class (classList_remove p c d) p c = false.
Proof.
  unfold classList_remove. rewrite has_class_update.
  destruct (props_at d p) as [pr|]; [|done]. case_decide; [|done].
  apply bool_decide_eq_false. set_solver.
Qed.

Lemma has_class_remove_ne p c q c' d :
  p ≠ q ∨ c ≠ c' →
  has_class (classList_remove p c d) q c' = has_class d q c'.
Proof.
  intros Hne. unfold classList_remove, has_class at 2. rewrite has_class_update.
  destruct (props_at d q) as [pr|]; [|done]. case_decide; [|done].
  apply bool_decide_ext. set_solver.
Qed.

Lemma has_class_setAttribute p a v q c d :
  has_class (setAttribute p a v d) q c = has_class d q c.
Proof.
  unfold setAttribute, has_class at 2. rewrite has_class_update.
  destruct (props_at d q); [|done]. by case_decide.
Qed.

Lemma has_class_style_set_height p h q c d :
  has_class (style_set_height p h d) q c = has_class d q c.
Proof.
  unfold style_set_height, has_class at 2. rewrite has_class_update.
  destruct (props_at d q); [|done]. by case_decide.
Qed.

Lemma get_style_height_style_set_height_eq p h d :
  is_Some (node d p) → get_style_height (style_set_height p h d) p = Some h.
Proof.
  intros [pr Hpr]%props_at_is_Some. unfold style_set_height.
  rewrite get_style_height_update, Hpr. cbn. by case_decide.
Qed.

Lemma get_style_height_classList_add p c q d :
  get_style_height (classList_add p c d) q = get_style_height d q.
Proof.
  unfold classList_add, get_style_height at 2. rewrite get_style_height_update.
  destruct (props_at d q); [|done]. cbn. by case_decide.
Qed.

Lemma get_style_height_classList_remove p c q d :
  get_style_height (classList_remove p c d) q = get_style_height d q.
Proof.
  unfold classList_remove, get_style_height at 2.
  rewrite get_style_height_update.
  destruct (props_at d q); [|done]. cbn. by case_decide.
Qed.

Lemma get_attribute_setAttribute_eq p a v d :
  is_Some (node d p) → get_attribute (setAttribute p a v d) p a = Some v.
Proof.
  intros [pr Hpr]%props_at_is_Some. unfold setAttribute.
  rewrite get_attribute_update, Hpr. cbn. case_decide; [|done].
  apply lookup_insert_eq.
Qed.

Lemma get_attribute_setAttribute_ne p a v q a' d :
  p ≠ q ∨ a ≠ a' →
  get_attribute (setAttribute p a v d) q a' = get_attribute d q a'.
Proof.
  intros Hne. unfold setAttribute, get_attribute at 2.
  rewrite get_attribute_update.
  destruct (props_at d q) as [pr|]; [|done]. cbn. case_decide; [|done].
  cbn. apply lookup_insert_ne. naive_solver.
Qed.

Lemma get_attribute_classList_add p c q a d :
  get_attribute (classList_add p c d) q a = get_attribute d q a.
Proof.
  unfold classList_add, get_attribute at 2. rewrite get_attribute_update.
  destruct (props_at d q); [|done]. cbn. by case_decide.
Qed.

Lemma get_attribute_classList_remove p c q a d :
  get_attribute (classList_remove p c d) q a = get_attribute d q a.
Proof.
  unfold classList_remove, get_attribute at 2. rewrite get_attribute_update.
  destruct (props_at d q); [|done]. cbn. by case_decide.
Qed.

(** *** Selectors read classes, tags and the shape only *)

Lemma closest_ext d d' c p :
  (∀ q, has_class d' q c = has_class d q c) →
  closest d' c p = closest d c p.
Proof.
  intros H. induction p as [|i p IH]; cbn [closest]; rewrite H; [done|].
  by rewrite IH.
Qed.

Lemma querySelectorAll_ext d d' p c :
  elements d' = elements d →
  (∀ q, has_class d' q c = has_class d q c) →
  querySelectorAll d' p c = querySelectorAll d p c.
Proof.
  intros He Hc. unfold querySelectorAll. rewrite He.
  apply list_filter_iff. intros q. by rewrite Hc.
Qed.

Lemma querySelector_ext d d' p c :
  elements d' = elements d →
  (∀ q, has_class d' q c = has_class d q c) →
  querySelector d' p c = querySelector d p c.
Proof. intros. unfold querySelector. by rewrite (querySelectorAll_ext d d'). Qed.

Lemma document_body_ext d d' :
  (∀ q t, has_tag d' q t = has_tag d q t) →
  (∀ q, childElements d' q = childElements d q) →
  document_body d' = document_body d.
Proof.
  intros Ht Hc. unfold document_body. rewrite Ht, Hc.
  destruct (has_tag d [] "html"); [|done]. f_equal.
  apply list_filter_iff. intros q. by rewrite !Ht.
Qed.

(** *** What the selectors find *)

Lemma is_descendant_spec q p :
  is_descendant q p = true ↔ p `suffix_of` q ∧ p ≠ q.
Proof.
  unfold is_descendant.
  rewrite andb_true_iff, negb_true_iff, bool_decide_eq_true, bool_decide_eq_false.
  done.
Qed.

Lemma is_descendant_child i p : is_descendant (i :: p) p = true.
Proof.
  apply is_descendant_spec. split; [by apply suffix_cons_r|].
  intros H. apply (f_equal length) in H. simpl in H. lia.
Qed.

(** A child of [q] lies below [p] exactly when [q] is [p] or lies below it. *)
Lemma is_descendant_cons i q p :
  is_descendant (i :: q) p = true ↔ p `suffix_of` q.
Proof.
  rewrite is_descendant_spec. split.
  - intros [Hs Hne]. destruct p as [|j p]; [apply suffix_nil|].
    apply suffix_cons_inv in Hs as [?|?]; done.
  - intros Hs. split; [by apply suffix_cons_r|].
    intros ->. by apply suffix_cons_not in Hs.
Qed.

Lemma is_descendant_suffix s q p :
  is_descendant s p = true → s `suffix_of` q → is_descendant q p = true.
Proof.
  rewrite !is_descendant_spec. intros [Hps Hne] Hsq. split; [by etrans|].
  intros ->. apply Hne. by apply (anti_symm suffix).
Qed.

Lemma closest_Some d c p j :
  closest d c p = Some j →
  j `suffix_of` p ∧ has_class d j c = true ∧
  ∀ q, q `suffix_of` p → has_class d q c = true → q `suffix_of` j.
Proof.
  induction p as [|i p IH]; cbn [closest].
  - destruct (has_class d [] c) eqn:Hc; [|done]. intros [= <-].
    split_and!; [done..|]. by intros q ->%suffix_nil_inv.
  - destruct (has_class d (i :: p) c) eqn:Hc.
    + intros [= <-]. split_and!; done.
    + intros (Hs & Hj & Hmax)%IH. split_and!; [by apply suffix_cons_r|done|].
      intros q Hq Hqc. destruct q as [|k q]; [apply suffix_nil|].
      apply suffix_cons_inv in Hq as [[= -> ->]|Hq]; [congruence|].
      by apply Hmax.
Qed.

Lemma elem_of_querySelectorAll d p c q :
  q ∈ querySelectorAll d p c ↔
  is_descendant q p = true ∧ has_class d q c = true.
Proof.
  unfold querySelectorAll.
  rewrite list_elem_of_filter, andb_True, !Is_true_true. split.
  - by intros [? _].
  - intros [? Hc]. split; [done|].
    apply elem_of_elements. by eapply has_class_is_element.
Qed.

Lemma querySelector_Some d p c q :
  querySelector d p c = Some q →
  is_descendant q p = true ∧ has_class d q c = true.
Proof.
  intros H%head_Some_elem_of. by apply elem_of_querySelectorAll.
Qed.

Lemma elem_of_document_querySelectorAll d c q :
  q ∈ document_querySelectorAll d c ↔ has_class d q c = true.
Proof.
  unfold document_querySelectorAll.
  rewrite list_elem_of_filter, Is_true_true. split; [by intros [? _]|].
  intros Hc. split; [done|].
  apply elem_of_elements. by eapply has_class_is_element.
Qed.

Lemma elem_of_document_querySelectorAll_child d pc c q :
  q ∈ document_querySelectorAll_child d pc c ↔
  child_of_class d pc q = true ∧ has_class d q c = true.
Proof.
  unfold document_querySelectorAll_child.
  rewrite list_elem_of_filter, andb_True, !Is_true_true. split.
  - by intros [? _].
  - intros [? Hc]. split; [done|].
    apply elem_of_elements. by eapply has_class_is_element.
Qed.

Lemma elem_of_option_list {A} (x : A) mx : x ∈ option_list mx ↔ mx = Some x.
Proof.
  destruct mx as [y|]; cbn.
  - rewrite list_elem_of_singleton. naive_solver.
  - rewrite elem_of_nil. naive_solver.
Qed.

(** *** Writes compose and commute *)

Lemma update_down_compose f g p e :
  update_down f p (update_down g p e) = update_down (f ∘ g) p e.
Proof.
  revert e. induction p as [|i p IH]; intros [pr cs]; cbn; [done|].
  f_equal. rewrite list_alter_alter_eq. apply list_alter_ext; [|done].
  intros c _. apply IH.
Qed.

Lemma update_down_ext f g p e :
  (∀ pr, f pr = g pr) → update_down f p e = update_down g p e.
Proof.
  intros H. revert e. induction p as [|i p IH]; intros [pr cs]; cbn.
  - by rewrite H.
  - f_equal. apply list_alter_ext; [|done]. intros c _. apply IH.
Qed.

Lemma update_down_comm f g p q e :
  (∀ pr, f (g pr) = g (f pr)) →
  update_down f p (update_down g q e) = update_down g q (update_down f p e).
Proof.
  intros H. revert q e. induction p as [|i p IH]; intros [|j q] [pr cs]; cbn;
    try done.
  - by rewrite H.
  - f_equal. destruct (decide (i = j)) as [->|Hij].
    + rewrite !list_alter_alter_eq. apply list_alter_ext; [|done].
      intros c _. apply IH.
    + by apply list_alter_alter_ne.
Qed.

Lemma update_compose f g p d :
  update f p (update g p d) = update (f ∘ g) p d.
Proof. apply update_down_compose. Qed.

Lemma update_ext f g p d : (∀ pr, f pr = g pr) → update f p d = update g p d.
Proof. apply update_down_ext. Qed.

Lemma update_comm f g p q d :
  (∀ pr, f (g pr) = g (f pr)) →
  update f p (update g q d) = update g q (update f p d).
Proof. apply update_down_comm. Qed.

Lemma update_idemp f p d :
  (∀ pr, f (f pr) = f pr) → update f p (update f p d) = update f p d.
Proof. intros H. rewrite update_compose. by apply update_ext. Qed.

End DomFacts.

(** ** What the listeners compute *)

Module HeaderFacts.
Import Dom Script Header Denotation Spec DomFacts.

Lemma collapse_sibling_run item sibling d :
  collapse_sibling item sibling d = (Normal (), collapse item d sibling).
Proof.
  unfold collapse_sibling, collapse. case_decide; [|done].
  unfold mbind, script_bind, modify, gets, when_some; cbn.
  by destruct (querySelector _ _ _).
Qed.

Lemma forEach_collapse_run item l d :
  forEach l (collapse_sibling item) d = (Normal (), foldl (collapse item) d l).
Proof.
  revert d. induction l as [|s l IH]; intros d; [done|].
  cbn [forEach foldl]. unfold mbind, script_bind.
  by rewrite collapse_sibling_run, IH.
Qed.

Lemma classList_toggle_run toggle item d :
  (isExpanded ← classList_toggle item expanded;
   modify (setAttribute toggle aria
             (if (isExpanded : bool) then "true" else "false"))) d
  = (Normal (), flip toggle item d).
Proof.
  unfold classList_toggle, flip, mbind, script_bind, modify, gets; cbn.
  by destruct (has_class d item expanded).
Qed.

Lemma toggle_listener_run toggle d :
  toggle_listener toggle d =
    match closest d item_class toggle with
    | None => (Normal (), d)
    | Some item =>
        match parentElement item with
        | None => (Throw "TypeError", d)
        | Some parent => (Normal (), toggled toggle item parent d)
        end
    end.
Proof.
  unfold toggle_listener, preventDefault.
  unfold mbind at 1 2, script_bind at 1 2, gets at 1; cbn.
  destruct (closest d item_class toggle) as [item|]; [|done]. cbn.
  unfold mbind at 1, script_bind at 1.
  destruct (parentElement item) as [parent|]; [|done]. cbn.
  unfold mbind at 1 2, script_bind at 1 2, gets at 1. cbn.
  rewrite forEach_collapse_run. apply classList_toggle_run.
Qed.

Lemma same_markup_refl c0 d : same_markup c0 d d.
Proof. by split. Qed.

Lemma same_markup_trans c0 d1 d2 d3 :
  same_markup c0 d1 d2 → same_markup c0 d2 d3 → same_markup c0 d1 d3.
Proof.
  intros [] []. split; intros; etrans; eauto.
Qed.

Lemma same_markup_update c0 f p d :
  (∀ pr, localName (f pr) = localName pr) →
  (∀ pr c, c ≠ c0 → c ∈ classList (f pr) ↔ c ∈ classList pr) →
  same_markup c0 d (update f p d).
Proof.
  intros Ht Hc. split.
  - apply elements_update.
  - intros. apply childElements_update.
  - intros. apply node_update_is_Some.
  - intros. by apply has_tag_update.
  - intros q c Hne. unfold has_class at 2. rewrite has_class_update.
    destruct (props_at d q) as [pr|]; [|done]. case_decide; [|done].
    apply bool_decide_ext. by apply Hc.
Qed.

Lemma same_markup_classList_add c0 p d :
  same_markup c0 d (classList_add p c0 d).
Proof. apply same_markup_update; [done|]. intros pr c Hne; cbn. set_solver. Qed.

Lemma same_markup_classList_remove c0 p d :
  same_markup c0 d (classList_remove p c0 d).
Proof. apply same_markup_update; [done|]. intros pr c Hne; cbn. set_solver. Qed.

Lemma same_markup_setAttribute c0 p a v d :
  same_markup c0 d (setAttribute p a v d).
Proof. by apply same_markup_update. Qed.

Lemma same_markup_closest c0 c d d' p :
  same_markup c0 d d' → c ≠ c0 → closest d' c p = closest d c p.
Proof. intros [] ?. apply closest_ext. auto. Qed.

Lemma same_markup_querySelector c0 c d d' p :
  same_markup c0 d d' → c ≠ c0 → querySelector d' p c = querySelector d p c.
Proof. intros [] ?. apply querySelector_ext; auto. Qed.

Lemma same_markup_document_body c0 d d' :
  same_markup c0 d d' → document_body d' = document_body d.
Proof. intros []. by apply document_body_ext. Qed.

(** *** The collapse loop *)

Lemma same_markup_collapse item d s : same_markup expanded d (collapse item d s).
Proof.
  unfold collapse. case_decide; [|apply same_markup_refl]. cbn zeta.
  destruct (querySelector _ _ _).
  - eapply same_markup_trans;
      [apply same_markup_classList_remove | apply same_markup_setAttribute].
  - apply same_markup_classList_remove.
Qed.

Lemma same_markup_collapse_all item l d :
  same_markup expanded d (foldl (collapse item) d l).
Proof.
  revert d. induction l as [|s l IH]; intros d; [apply same_markup_refl|].
  cbn. eapply same_markup_trans; [apply same_markup_collapse | apply IH].
Qed.

Lemma same_markup_flip toggle item d : same_markup expanded d (flip toggle item d).
Proof.
  unfold flip. destruct (has_class d item expanded).
  - eapply same_markup_trans;
      [apply same_markup_classList_remove | apply same_markup_setAttribute].
  - eapply same_markup_trans;
      [apply same_markup_classList_add | apply same_markup_setAttribute].
Qed.

Lemma same_markup_toggle_listener toggle d :
  same_markup expanded d (exec (toggle_listener toggle) d).
Proof.
  unfold exec. rewrite toggle_listener_run.
  destruct (closest d item_class toggle) as [item|]; [|apply same_markup_refl].
  destruct (parentElement item) as [parent|]; [|apply same_markup_refl].
  eapply same_markup_trans;
    [apply same_markup_collapse_all | apply same_markup_flip].
Qed.

(** The expanded class after the loop: gone from the listed elements other
    than the item, as before everywhere else. *)
Lemma has_class_collapse item d s q :
  has_class (collapse item d s) q expanded =
    has_class d q expanded && negb (bool_decide (q = s ∧ q ≠ item)).
Proof.
  unfold collapse. case_decide as Hs.
  - cbn zeta.
    assert (has_class (classList_remove s expanded d) q expanded =
            has_class d q expanded && negb (bool_decide (q = s ∧ q ≠ item)))
      as Hrem.
    { destruct (decide (q = s)) as [->|Hqs].
      - rewrite has_class_remove_eq, bool_decide_true by done.
        by rewrite andb_false_r.
      - rewrite has_class_remove_ne by auto.
        rewrite bool_decide_false by naive_solver. by rewrite andb_true_r. }
    destruct (querySelector _ _ _); [|done].
    by rewrite has_class_setAttribute.
  - rewrite bool_decide_false; [by rewrite andb_true_r|].
    intros [-> ?]. congruence.
Qed.

Lemma has_class_collapse_all item l d q :
  has_class (foldl (collapse item) d l) q expanded =
    has_class d q expanded && negb (bool_decide (q ∈ l ∧ q ≠ item)).
Proof.
  revert d. induction l as [|s l IH]; intros d; cbn [foldl].
  - rewrite bool_decide_false; [by rewrite andb_true_r|].
    intros [?%elem_of_nil _]. done.
  - rewrite IH, has_class_collapse, <- andb_assoc. f_equal.
    rewrite <- negb_orb. f_equal.
    apply eq_true_iff_eq.
    rewrite orb_true_iff, !bool_decide_eq_true, elem_of_cons. naive_solver.
Qed.

Lemma has_class_item_collapse_all item l d :
  has_class (foldl (collapse item) d l) item expanded = has_class d item expanded.
Proof.
  rewrite has_class_collapse_all, bool_decide_false by naive_solver.
  apply andb_true_r.
Qed.

(** The expanded class after a click that found its item: flipped on the
    item, gone from every other element below the item's parent, as before
    elsewhere. *)
Lemma has_class_toggled toggle item parent d q :
  is_Some (node d item) →
  has_class (toggled toggle item parent d) q expanded =
    if decide (q = item) then negb (has_class d item expanded)
    else if is_descendant q parent then false
    else has_class d q expanded.
Proof.
  intros Hitem. unfold toggled, flip.
  rewrite has_class_item_collapse_all.
  set (d1 := foldl (collapse item) d (querySelectorAll d parent expanded)).
  assert (has_class d1 q expanded =
          if decide (q = item) then has_class d item expanded
          else if is_descendant q parent then false
          else has_class d q expanded) as Hd1.
  { unfold d1. case_decide as Hq; [subst; apply has_class_item_collapse_all|].
    rewrite has_class_collapse_all.
    destruct (is_descendant q parent) eqn:Hdesc.
    - destruct (has_class d q expanded) eqn:Hexp; [|done].
      rewrite bool_decide_true; [done|]. split; [|done].
      by apply elem_of_querySelectorAll.
    - rewrite bool_decide_false; [apply andb_true_r|].
      intros [[? _]%elem_of_querySelectorAll _]. congruence. }
  destruct (has_class d item expanded) eqn:Hexp;
    rewrite has_class_setAttribute;
    destruct (decide (q = item)) as [->|Hq].
  - apply has_class_remove_eq.
  - by rewrite has_class_remove_ne by auto.
  - apply has_class_add_eq.
    by apply (sm_node _ _ _ (same_markup_collapse_all item _ d)).
  - by rewrite has_class_add_ne by auto.
Qed.

Lemma get_attribute_collapse item d s u :
  get_attribute (collapse item d s) u aria =
    if decide (collapses d item u s) then Some "false"
    else get_attribute d u aria.
Proof.
  assert (querySelector (classList_remove s expanded d) s toggle_class =
          querySelector d s toggle_class) as Hqs.
  { apply (same_markup_querySelector expanded); [|done].
    apply same_markup_classList_remove. }
  unfold collapse. destruct (decide (collapses d item u s)) as [[Hs Hq]|Hn].
  - destruct (decide (s ≠ item)); [|done]. cbn zeta. rewrite Hqs, Hq.
    apply get_attribute_setAttribute_eq, node_update_is_Some.
    apply querySelector_Some in Hq as [_ Hq].
    by eapply has_class_is_element.
  - destruct (decide (s ≠ item)) as [Hs|Hs]; [|done]. cbn zeta. rewrite Hqs.
    destruct (querySelector d s toggle_class) as [t|] eqn:Ht.
    + rewrite get_attribute_setAttribute_ne.
      * apply get_attribute_classList_remove.
      * left. intros ->. by apply Hn.
    + apply get_attribute_classList_remove.
Qed.

Lemma get_attribute_collapse_all item l d u :
  get_attribute (foldl (collapse item) d l) u aria =
    if decide (Exists (collapses d item u) l) then Some "false"
    else get_attribute d u aria.
Proof.
  revert d. induction l as [|s l IH]; intros d; cbn [foldl].
  - rewrite decide_False; [done|]. by intros ?%Exists_nil.
  - rewrite IH, get_attribute_collapse.
    assert (∀ s', collapses (collapse item d s) item u s' ↔ collapses d item u s')
      as Hsame.
    { intros s'. unfold collapses.
      by rewrite (same_markup_querySelector expanded _ d)
        by (done || apply same_markup_collapse). }
    destruct (decide (Exists (collapses d item u) (s :: l))) as [He|He];
      rewrite Exists_cons in He.
    + case_decide as He'; [done|]. rewrite decide_True; [done|].
      destruct He as [?|He]; [done|]. destruct He'.
      eapply Exists_impl; [done|]. intros ?. apply Hsame.
    + rewrite decide_False.
      * rewrite decide_False; [done|]. naive_solver.
      * intros He'. apply He. right.
        eapply Exists_impl; [done|]. intros ?. apply Hsame.
Qed.

Lemma get_attribute_toggled toggle item parent d u :
  is_Some (node d toggle) →
  get_attribute (toggled toggle item parent d) u aria =
    if decide (u = toggle)
    then Some (if has_class d item expanded then "false" else "true")
    else if decide (Exists (collapses d item u)
                           (querySelectorAll d parent expanded))
    then Some "false"
    else get_attribute d u aria.
Proof.
  intros Htoggle. unfold toggled, flip.
  rewrite has_class_item_collapse_all.
  set (d1 := foldl (collapse item) d (querySelectorAll d parent expanded)).
  assert (is_Some (node d1 toggle)) as Ht1.
  { by apply (sm_node _ _ _ (same_markup_collapse_all item _ d)). }
  destruct (has_class d item expanded); case_decide as Hu; subst.
  - apply get_attribute_setAttribute_eq. by apply node_update_is_Some.
  - rewrite get_attribute_setAttribute_ne, get_attribute_classList_remove by auto.
    apply get_attribute_collapse_all.
  - apply get_attribute_setAttribute_eq. by apply node_update_is_Some.
  - rewrite get_attribute_setAttribute_ne, get_attribute_classList_add by auto.
    apply get_attribute_collapse_all.
Qed.

(** *** Clicks that reach a toggle *)

Lemma click_run b toggle d :
  click b toggle d =
    if decide (toggle ∈ mnavToggles b) then toggle_listener toggle d
    else (Normal (), d).
Proof. unfold click. by case_decide. Qed.

Lemma link_listener_run b link d :
  link_listener b link d =
    match closest d item_class link with
    | Some item =>
        match querySelector d item toggle_class with
        | Some toggle => click b toggle d
        | None => (Normal (), d)
        end
    | None => (Normal (), d)
    end.
Proof.
  unfold link_listener, preventDefault, mbind, script_bind, gets; cbn.
  destruct (closest d item_class link) as [item|]; cbn; [|done].
  by destruct (querySelector d item toggle_class).
Qed.

(** A menu event leaves the document alone or is the listener of one of
    the bound toggles. *)
Lemma menu_listener_cases b ev d :
  exec (menu_listener b ev) d = d ∨
  ∃ toggle, toggle ∈ mnavToggles b ∧
            exec (menu_listener b ev) d = exec (toggle_listener toggle) d.
Proof.
  unfold exec. destruct ev as [toggle|link]; cbn [menu_listener].
  - rewrite click_run. case_decide; eauto.
  - rewrite link_listener_run.
    destruct (closest d item_class link) as [item|]; [|by left].
    destruct (querySelector d item toggle_class) as [toggle|]; [|by left].
    rewrite click_run. case_decide; eauto.
Qed.

(** An invariant of the toggle listener is an invariant of every run of
    menu events. *)
Lemma run_menu_invariant (I : element → Prop) b evs d :
  (∀ d toggle, toggle ∈ mnavToggles b → I d → I (exec (toggle_listener toggle) d)) →
  I d → I (run (menu_listener b) evs d).
Proof.
  intros Hstep. revert d. induction evs as [|ev evs IH]; intros d Hd; [done|].
  cbn. apply IH.
  destruct (menu_listener_cases b ev d) as [->|(t & Ht & ->)]; auto.
Qed.

(** *** Siblings *)

Lemma childElements_eq d p :
  childElements d p =
    match node d p with
    | Some e => (λ i, i :: p) <$> seq 0 (length (children e))
    | None => []
    end.
Proof.
  unfold childElements. destruct (node d p) as [e|]; [|done].
  apply (imap_seq_0 (children e) (λ i, i :: p)).
Qed.

Lemma NoDup_childElements d p : NoDup (childElements d p).
Proof.
  rewrite childElements_eq. destruct (node d p); [|constructor].
  apply NoDup_fmap_2; [|apply NoDup_seq]. by intros i j [= ->].
Qed.

Lemma elem_of_childElements d p q :
  q ∈ childElements d p → parentElement q = Some p.
Proof.
  rewrite childElements_eq. destruct (node d p); [|by intros ?%elem_of_nil].
  by intros (i & -> & _)%list_elem_of_fmap.
Qed.

Lemma list_filter_iff_elem_of {A} (P Q : A → Prop)
    `{!∀ x, Decision (P x), !∀ x, Decision (Q x)} (l : list A) :
  (∀ x, x ∈ l → P x ↔ Q x) → filter P l = filter Q l.
Proof.
  induction l as [|a l IH]; intros Hl; [done|].
  rewrite !filter_cons, IH by (intros; apply Hl; by right).
  pose proof (Hl a (list_elem_of_here _ _)). repeat case_decide; naive_solver.
Qed.

Lemma length_filter_le_1 {A} (P : A → Prop) `{!∀ x, Decision (P x)} l a :
  NoDup l → (∀ x, x ∈ l → P x → x = a) → length (filter P l) ≤ 1.
Proof.
  intros Hnd Ha.
  assert (NoDup (filter P l)) as Hnd' by by apply NoDup_filter.
  assert (∀ x, x ∈ filter P l → x = a) as Ha'.
  { intros x [? ?]%list_elem_of_filter. auto. }
  destruct (filter P l) as [|x [|y l']]; cbn; [lia..|].
  exfalso. apply NoDup_cons in Hnd' as [Hx _]. apply Hx.
  rewrite (Ha' x), (Ha' y); [left| |]; set_solver.
Qed.

Lemma expanded_siblings_toggled_below toggle item parent d q :
  is_Some (node d item) → parentElement item = Some parent →
  parent `suffix_of` q →
  length (expanded_siblings (toggled toggle item parent d) q) ≤ 1.
Proof.
  intros Hitem Hparent Hq. unfold expanded_siblings.
  apply (length_filter_le_1 _ _ item); [apply NoDup_childElements|].
  intros x Hx [_ Hexp]%andb_True. apply Is_true_true in Hexp.
  rewrite has_class_toggled in Hexp by done.
  destruct (decide (x = item)); [done|].
  apply elem_of_childElements in Hx. destruct x as [|i x]; simplify_eq/=.
  by rewrite (proj2 (is_descendant_cons i _ _) Hq) in Hexp.
Qed.

Lemma expanded_siblings_toggled_apart toggle item parent d q :
  is_Some (node d item) → parentElement item = Some parent →
  ¬ parent `suffix_of` q →
  expanded_siblings (toggled toggle item parent d) q = expanded_siblings d q.
Proof.
  intros Hitem Hparent Hq. unfold expanded_siblings.
  pose proof (same_markup_flip toggle item
    (foldl (collapse item) d (querySelectorAll d parent expanded))) as Hf.
  pose proof (same_markup_collapse_all item
    (querySelectorAll d parent expanded) d) as Hc.
  pose proof (same_markup_trans _ _ _ _ Hc Hf) as Hsm. fold (toggled toggle item parent d) in Hsm.
  rewrite (sm_children _ _ _ Hsm).
  apply list_filter_iff_elem_of. intros x Hx.
  rewrite (sm_class _ _ _ Hsm) by done.
  rewrite has_class_toggled by done.
  apply elem_of_childElements in Hx. destruct x as [|i x]; simplify_eq/=.
  destruct item as [|k up]; simplify_eq/=.
  rewrite decide_False by (intros [= -> ->]; by apply Hq).
  destruct (is_descendant _ parent) eqn:Hd; [|done].
  by apply (proj1 (is_descendant_cons _ _ _)) in Hd.
Qed.

Lemma expanded_siblings_toggle_listener toggle d q :
  length (expanded_siblings d q) ≤ 1 →
  length (expanded_siblings (exec (toggle_listener toggle) d) q) ≤ 1.
Proof.
  unfold exec. rewrite toggle_listener_run.
  destruct (closest d item_class toggle) as [item|] eqn:Hitem; [|done].
  destruct (parentElement item) as [parent|] eqn:Hparent; [|done].
  cbn. intros Hq.
  assert (is_Some (node d item)) as Hnode.
  { apply closest_Some in Hitem as (_ & Hc & _).
    by eapply has_class_is_element. }
  destruct (decide (parent `suffix_of` q)).
  - by apply expanded_siblings_toggled_below.
  - by rewrite expanded_siblings_toggled_apart.
Qed.

(** *** The mirror of the expanded class in [aria-expanded] *)

Lemma mirrors_spec d :
  mirrors d = true ↔
  ∀ u item, has_class d u toggle_class = true →
            closest d item_class u = Some item →
            get_attribute d u aria =
              Some (if has_class d item expanded then "true" else "false").
Proof.
  unfold mirrors. rewrite <- Is_true_true, forallb_True, Forall_forall. split.
  - intros H u item Hu Hitem.
    assert (u ∈ elements d) as Hin.
    { apply elem_of_elements. by eapply has_class_is_element. }
    apply H in Hin. unfold toggle_mirrors in Hin. rewrite Hu, Hitem in Hin.
    by apply bool_decide_unpack in Hin.
  - intros H u _. unfold toggle_mirrors.
    destruct (has_class d u toggle_class) eqn:Hu; [|done].
    destruct (closest d item_class u) as [item|] eqn:Hitem; [|done].
    apply bool_decide_pack. by apply H.
Qed.

Lemma menu_markup_spec d :
  menu_markup d = true ↔
  (∀ u item, has_class d u toggle_class = true →
             closest d item_class u = Some item →
             querySelector d item toggle_class = Some u) ∧
  (∀ q, has_class d q expanded = true → has_class d q item_class = true).
Proof.
  unfold menu_markup. rewrite <- Is_true_true, forallb_True, Forall_forall.
  split.
  - intros H. split.
    + intros u item Hu Hitem.
      assert (u ∈ elements d) as Hin.
      { apply elem_of_elements. by eapply has_class_is_element. }
      apply H, andb_True in Hin as [Hin _].
      unfold own_toggle_first in Hin. rewrite Hu, Hitem in Hin.
      by apply bool_decide_unpack in Hin.
    + intros q Hq.
      assert (q ∈ elements d) as Hin.
      { apply elem_of_elements. by eapply has_class_is_element. }
      apply H, andb_True in Hin as [_ Hin].
      unfold expanded_on_item in Hin. rewrite Hq in Hin.
      by apply Is_true_true in Hin.
  - intros [Htoggle Hexp] u _. apply andb_True. split.
    + unfold own_toggle_first.
      destruct (has_class d u toggle_class) eqn:Hu; [|done].
      destruct (closest d item_class u) as [item|] eqn:Hitem; [|done].
      apply bool_decide_pack. by apply Htoggle.
    + unfold expanded_on_item.
      destruct (has_class d u expanded) eqn:Hu; [|done].
      by rewrite Hexp.
Qed.

Lemma menu_markup_toggle_listener toggle d :
  menu_markup d = true → menu_markup (exec (toggle_listener toggle) d) = true.
Proof.
  pose proof (same_markup_toggle_listener toggle d) as Hsm.
  rewrite !menu_markup_spec. intros [Htoggle Hexp]. split.
  - intros u item.
    rewrite (sm_class _ _ _ Hsm), (same_markup_closest _ _ _ _ _ Hsm),
      (same_markup_querySelector _ _ _ _ _ Hsm) by done.
    apply Htoggle.
  - intros q. rewrite (sm_class _ _ _ Hsm q item_class) by done.
    unfold exec. rewrite toggle_listener_run.
    destruct (closest d item_class toggle) as [item|] eqn:Hitem; [|apply Hexp].
    destruct (parentElement item) as [parent|] eqn:Hparent; [|apply Hexp].
    apply closest_Some in Hitem as (_ & Hc & _).
    cbn. rewrite has_class_toggled by by eapply has_class_is_element.
    case_decide; [by subst|]. destruct (is_descendant q parent); [done|].
    apply Hexp.
Qed.

(** The toggle that was clicked mirrors its item after the click. *)
Lemma clicked_toggle_mirrors toggle item parent d :
  is_Some (node d toggle) → is_Some (node d item) →
  let d' := toggled toggle item parent d in
  get_attribute d' toggle aria =
    Some (if has_class d' item expanded then "true" else "false").
Proof.
  intros Htoggle Hitem d'. unfold d'.
  rewrite get_attribute_toggled, has_class_toggled by done.
  rewrite !decide_True by done. by destruct (has_class d item expanded).
Qed.

Lemma mirrors_toggle_listener toggle d :
  menu_markup d = true → has_class d toggle toggle_class = true →
  mirrors d = true → mirrors (exec (toggle_listener toggle) d) = true.
Proof.
  intros Hmarkup Htoggle Hmirror.
  pose proof (same_markup_toggle_listener toggle d) as Hsm.
  apply menu_markup_spec in Hmarkup as [Hfirst Honitem].
  rewrite mirrors_spec in Hmirror. apply mirrors_spec. intros u j.
  rewrite (sm_class _ _ _ Hsm), (same_markup_closest _ _ _ _ _ Hsm) by done.
  intros Hu Hj. specialize (Hmirror u j Hu Hj).
  unfold exec. rewrite toggle_listener_run.
  destruct (closest d item_class toggle) as [item|] eqn:Hitem; [|done].
  destruct (parentElement item) as [parent|] eqn:Hparent; [|done]. cbn.
  assert (is_Some (node d toggle)) as Hnt by by eapply has_class_is_element.
  assert (is_Some (node d item)) as Hni.
  { apply closest_Some in Hitem as (_ & Hc & _).
    by eapply has_class_is_element. }
  destruct (decide (u = toggle)) as [->|Hne].
  { simplify_eq. by apply clicked_toggle_mirrors. }
  assert (j ≠ item) as Hji.
  { intros ->. apply Hne.
    pose proof (Hfirst _ _ Hu Hj). pose proof (Hfirst _ _ Htoggle Hitem).
    congruence. }
  rewrite get_attribute_toggled, has_class_toggled by done.
  destruct (decide (u = toggle)); [done|].
  destruct (decide (j = item)); [done|].
  destruct (decide (Exists _ _)) as [Hex|Hex].
  - apply Exists_exists in Hex as (s & Hs & Hsi & Hqs).
    apply elem_of_querySelectorAll in Hs as [Hdesc Hsexp].
    apply querySelector_Some in Hqs as [[Hsu _]%is_descendant_spec _].
    apply closest_Some in Hj as (_ & _ & Hmax).
    rewrite (is_descendant_suffix s j parent); auto.
  - destruct (is_descendant j parent) eqn:Hdesc; [|done].
    destruct (has_class d j expanded) eqn:Hjexp; [|done].
    destruct Hex. apply Exists_exists. exists j. split.
    + by apply elem_of_querySelectorAll.
    + split; [done|]. by apply Hfirst.
Qed.

(** *** Mobile navigation *)

Lemma openMobileNav_run b d :
  openMobileNav b d =
    match document_body d with
    | Some body => (Normal (), opened b body d)
    | None => (Throw "TypeError", d)
    end.
Proof.
  unfold openMobileNav, opened, set_trigger, mbind, script_bind, gets, deref,
    when_some, modify; cbn.
  destruct (document_body d) as [body|]; cbn; [|done].
  by destruct (mnavOpen b).
Qed.

Lemma closeMobileNav_run b d :
  closeMobileNav b d =
    match document_body d with
    | Some body => (Normal (), closed b body d)
    | None => (Throw "TypeError", d)
    end.
Proof.
  unfold closeMobileNav, closed, set_trigger, mbind, script_bind, gets, deref,
    when_some, modify; cbn.
  destruct (document_body d) as [body|]; cbn; [|done].
  by destruct (mnavOpen b).
Qed.

Lemma keydown_listener_run b key d :
  keydown_listener b key d =
    if decide (key = "Escape") then
      match document_body d with
      | Some body =>
          if has_class d body "mnav-active" then (Normal (), closed b body d)
          else (Normal (), d)
      | None => (Throw "TypeError", d)
      end
    else (Normal (), d).
Proof.
  unfold keydown_listener. case_decide; [|done].
  unfold mbind, script_bind, gets, deref; cbn -[closeMobileNav].
  destruct (document_body d) as [body|] eqn:Hbody; cbn -[closeMobileNav];
    [|done].
  destruct (has_class d body "mnav-active"); [|done].
  by rewrite closeMobileNav_run, Hbody.
Qed.

Lemma keydown_escape_run b d :
  keydown_listener b "Escape" d =
    match document_body d with
    | Some body =>
        if has_class d body "mnav-active" then (Normal (), closed b body d)
        else (Normal (), d)
    | None => (Throw "TypeError", d)
    end.
Proof. rewrite keydown_listener_run. by case_decide. Qed.

Lemma same_markup_set_trigger c0 b v d : same_markup c0 d (set_trigger b v d).
Proof.
  unfold set_trigger. destruct (mnavOpen b);
    [apply same_markup_setAttribute | apply same_markup_refl].
Qed.

Lemma has_class_set_trigger b v d q c :
  has_class (set_trigger b v d) q c = has_class d q c.
Proof.
  unfold set_trigger. destruct (mnavOpen b); [|done].
  apply has_class_setAttribute.
Qed.

Lemma same_markup_opened b body d : same_markup "mnav-active" d (opened b body d).
Proof.
  eapply same_markup_trans;
    [apply same_markup_classList_add | apply same_markup_set_trigger].
Qed.

Lemma same_markup_closed b body d : same_markup "mnav-active" d (closed b body d).
Proof.
  eapply same_markup_trans;
    [apply same_markup_classList_remove | apply same_markup_set_trigger].
Qed.

Lemma nav_active_opened b body d :
  document_body d = Some body → nav_active (opened b body d) = true.
Proof.
  intros Hbody. unfold nav_active.
  rewrite (same_markup_document_body _ _ _ (same_markup_opened b body d)), Hbody.
  unfold opened. rewrite has_class_set_trigger.
  by apply has_class_add_eq, document_body_is_element.
Qed.

Lemma nav_active_closed b body d :
  document_body d = Some body → nav_active (closed b body d) = false.
Proof.
  intros Hbody. unfold nav_active.
  rewrite (same_markup_document_body _ _ _ (same_markup_closed b body d)), Hbody.
  unfold closed. rewrite has_class_set_trigger. apply has_class_remove_eq.
Qed.

Lemma nav_listener_run b ev d :
  nav_listener b ev d =
    match ev with
    | OpenTriggerClick => openMobileNav b d
    | CloseTriggerClick | OverlayTriggerClick => closeMobileNav b d
    | EscapeKey => keydown_listener b "Escape" d
    end.
Proof. by destruct ev. Qed.

(** The flag after one event: set by an open-trigger click, unset by every
    other event, whatever it was before. *)
Lemma nav_active_step b ev d :
  is_Some (document_body d) →
  nav_active (exec (nav_listener b ev) d) =
    match ev with OpenTriggerClick => true | _ => false end.
Proof.
  intros [body Hbody]. unfold exec. rewrite nav_listener_run.
  destruct ev;
    rewrite ?openMobileNav_run, ?closeMobileNav_run, ?keydown_escape_run, Hbody.
  - by apply nav_active_opened.
  - by apply nav_active_closed.
  - by apply nav_active_closed.
  - destruct (has_class d body "mnav-active") eqn:Hactive.
    + by apply nav_active_closed.
    + unfold nav_active. cbn [snd]. by rewrite Hbody.
Qed.

Lemma document_body_nav_step b ev d :
  document_body (exec (nav_listener b ev) d) = document_body d.
Proof.
  unfold exec. rewrite nav_listener_run.
  destruct ev;
    rewrite ?openMobileNav_run, ?closeMobileNav_run, ?keydown_escape_run;
    destruct (document_body d) as [body|] eqn:Hbody; cbn [snd]; try done.
  - by rewrite (same_markup_document_body _ _ _ (same_markup_opened b body d)).
  - by rewrite (same_markup_document_body _ _ _ (same_markup_closed b body d)).
  - by rewrite (same_markup_document_body _ _ _ (same_markup_closed b body d)).
  - destruct (has_class d body "mnav-active"); cbn [snd]; [|done].
    by rewrite (same_markup_document_body _ _ _ (same_markup_closed b body d)).
Qed.

Lemma run_cons {E} (listener : E → script element ()) ev evs d :
  run listener (ev :: evs) d = run listener evs (exec (listener ev) d).
Proof. done. Qed.

Lemma document_body_nav_run b evs d :
  document_body (run (nav_listener b) evs d) = document_body d.
Proof.
  revert d. induction evs as [|ev evs IH]; intros d; [done|].
  by rewrite run_cons, IH, document_body_nav_step.
Qed.

Lemma run_snoc {E} (listener : E → script element ()) evs ev d :
  run listener (evs ++ [ev]) d = exec (listener ev) (run listener evs d).
Proof. unfold run. by rewrite foldl_app. Qed.

Lemma trace_snoc b evs ev d :
  trace b (evs ++ [ev]) d =
    trace b evs d ++ [(ev, nav_active (run (nav_listener b) evs d))].
Proof.
  revert d. induction evs as [|ev' evs IH]; intros d; [done|].
  by rewrite <- app_comm_cons, run_cons; cbn [trace]; rewrite IH.
Qed.

(** *** Sticky header *)

Section Sticky.

Context {number : Type}.
Variable gt : number → number → bool.
Variable number_to_string : number → string.

Lemma handleStickyHeader_run headerSticky height pageYOffset d :
  handleStickyHeader gt number_to_string headerSticky height pageYOffset d =
    (Normal (),
     if gt pageYOffset height
     then stuck (number_to_string height +:+ "px") headerSticky d
     else unstuck headerSticky d).
Proof.
  unfold handleStickyHeader, stuck, unstuck.
  destruct (gt pageYOffset height); [done|].
  unfold mbind, script_bind, gets, modify; cbn.
  by destruct (has_class d headerSticky sticky_active).
Qed.

(** *** The load-time statements *)

Variable bounding_height : element → position → number.

Lemma when_some_addEventListener {A} (o : option A) (f : A → @listener number)
    pg :
  when_some o (λ x, addEventListener (f x)) pg =
    (Normal (), Page (listeners pg ++ option_list (f <$> o)) (document pg)).
Proof.
  destruct o, pg as [ls d]; cbn; [done|].
  unfold mret, script_ret. by rewrite app_nil_r.
Qed.

Lemma forEach_addEventListener {A} (l : list A) (f : A → @listener number) pg :
  forEach l (λ x, addEventListener (f x)) pg =
    (Normal (), Page (listeners pg ++ (f <$> l)) (document pg)).
Proof.
  revert pg. induction l as [|x l IH]; intros [ls d].
  - cbn. unfold mret, script_ret. by rewrite app_nil_r.
  - cbn [forEach]. unfold mbind, script_bind. cbn. rewrite IH. cbn.
    by rewrite <- app_assoc.
Qed.

Lemma forEach_parent_links (l : list position) pg :
  forEach l (λ link,
    href ← gets (λ pg, get_attribute (document pg) link "href");
    if decide (href = Some "javascript:;")
    then addEventListener (number := number) (LinkClick link)
    else mret ()) pg =
    (Normal (),
     Page (listeners pg ++
           (LinkClick <$>
              filter (λ link, get_attribute (document pg) link "href" =
                              Some "javascript:;") l))
          (document pg)).
Proof.
  revert pg. induction l as [|x l IH]; intros [ls d].
  - cbn. unfold mret, script_ret. by rewrite app_nil_r.
  - cbn [forEach]. unfold mbind at 1, script_bind at 1.
    unfold mbind at 1, script_bind at 1, gets at 1. cbn [document].
    rewrite filter_cons. case_decide; cbn.
    + rewrite IH. cbn. by rewrite <- app_assoc.
    + by rewrite IH.
Qed.

Lemma on_document_handleStickyHeader headerSticky height pageYOffset
    (pg : @page number) :
  on_document (handleStickyHeader gt number_to_string headerSticky height
                                  pageYOffset) pg =
    (Normal (),
     Page (listeners pg)
          (exec (handleStickyHeader gt number_to_string headerSticky height
                                    pageYOffset) (document pg))).
Proof.
  unfold on_document, exec. by rewrite handleStickyHeader_run.
Qed.

(** The load-time statements as a function of the page: the listeners of
    the navigation are registered one by one; the sticky header then
    throws, is skipped, or registers its three listeners and runs once. *)
Lemma init_run pageYOffset ls d :
  init gt number_to_string bounding_height pageYOffset (Page ls d) =
    let ls1 := ls ++ nav_listeners d in
    match document_querySelector d "header__sticky-element",
          document_querySelector d "header--sticky" with
    | None, _ => (Normal (), Page ls1 d)
    | Some _, None => (Throw "TypeError", Page ls1 d)
    | Some _, Some headerSticky =>
        let height := bounding_height d headerSticky in
        (Normal (),
         Page (ls1 ++ sticky_listeners bounding_height d)
              (exec (handleStickyHeader gt number_to_string headerSticky height
                                        pageYOffset) d))
    end.
Proof.
  unfold init, nav_listeners, sticky_listeners.
  unfold mbind at 1, script_bind at 1, gets at 1. cbn [document].
  unfold mbind at 1, script_bind at 1. rewrite when_some_addEventListener.
  unfold mbind at 1, script_bind at 1. rewrite when_some_addEventListener.
  unfold mbind at 1, script_bind at 1. rewrite when_some_addEventListener.
  unfold mbind at 1, script_bind at 1. rewrite forEach_addEventListener.
  unfold mbind at 1, script_bind at 1. rewrite forEach_parent_links.
  unfold mbind at 1, script_bind at 1. cbn [addEventListener modify listeners document].
  unfold mbind at 1, script_bind at 1, gets at 1. cbn [document].
  rewrite <- !app_assoc.
  destruct (document_querySelector d "header__sticky-element"); [|done].
  cbn [when_some].
  unfold mbind at 1, script_bind at 1, gets at 1. cbn [document].
  destruct (document_querySelector d "header--sticky") as [hs|]; [|done].
  unfold mbind at 1, script_bind at 1. cbn [deref mret script_ret].
  unfold mbind at 1, script_bind at 1, gets at 1. cbn [document].
  unfold mbind at 1, script_bind at 1. rewrite forEach_addEventListener.
  cbn [listeners document]. rewrite on_document_handleStickyHeader.
  cbn [listeners document]. by rewrite <- !app_assoc.
Qed.

Lemma init_listeners pageYOffset d :
  listeners (exec (init gt number_to_string bounding_height pageYOffset)
                  (Page [] d)) =
    nav_listeners d ++ sticky_listeners bounding_height d.
Proof.
  unfold exec. rewrite init_run. unfold sticky_listeners. cbn zeta.
  destruct (document_querySelector d "header__sticky-element");
    [destruct (document_querySelector d "header--sticky")|];
    cbn; by rewrite ?app_nil_r.
Qed.

Lemma init_completes pageYOffset d :
  completes (init gt number_to_string bounding_height pageYOffset) (Page [] d)
    = false ↔ sticky_header_missing d.
Proof.
  unfold completes, sticky_header_missing. rewrite init_run. cbn zeta.
  destruct (document_querySelector d "header__sticky-element");
    [destruct (document_querySelector d "header--sticky")|]; cbn;
    split; try done; try (by intros [_ [=]]); try (by intros [[? [=]] _]);
    eauto.
Qed.

Lemma elem_of_nav_listeners (l : @listener number) d :
  l ∈ nav_listeners d ↔
  match l with
  | OpenClick o => document_querySelector d "mnav__open" = Some o
  | CloseClick c => document_querySelector d "mnav__close" = Some c
  | OverlayClick o => document_querySelector d "mnav__overlay" = Some o
  | ToggleClick toggle => has_class d toggle toggle_class = true
  | LinkClick link =>
      child_of_class d "mnav__menu__item--parent" link = true ∧
      has_class d link "mnav__menu__link" = true ∧
      get_attribute d link "href" = Some "javascript:;"
  | DocumentKeydown => True
  | WindowSticky _ _ _ => False
  end.
Proof.
  unfold nav_listeners, bind_elements.
  cbn [mnavOpen mnavClose mnavOverlay mnavToggles mnavParentLinks].
  rewrite !elem_of_app, !elem_of_option_list, !list_elem_of_fmap,
    list_elem_of_singleton.
  setoid_rewrite elem_of_document_querySelectorAll.
  setoid_rewrite list_elem_of_filter.
  setoid_rewrite elem_of_document_querySelectorAll_child.
  destruct l;
    repeat match goal with
           | |- context [?f <$> ?o = Some _] =>
               rewrite (fmap_Some f o)
           end; naive_solver.
Qed.

Lemma elem_of_sticky_listeners (l : @listener number) d :
  l ∈ sticky_listeners bounding_height d ↔
  match l with
  | WindowSticky eventType headerSticky height =>
      eventType ∈ ["resize"; "scroll"; "load"] ∧
      is_Some (document_querySelector d "header__sticky-element") ∧
      document_querySelector d "header--sticky" = Some headerSticky ∧
      height = bounding_height d headerSticky
  | _ => False
  end.
Proof.
  unfold sticky_listeners.
  destruct (document_querySelector d "header__sticky-element") as [e|];
    [destruct (document_querySelector d "header--sticky") as [hs|]|].
  - rewrite list_elem_of_fmap. destruct l; naive_solver.
  - rewrite elem_of_nil. destruct l; naive_solver.
  - rewrite elem_of_nil. destruct l; naive_solver.
Qed.

End Sticky.

Lemma update_is_element f p q d :
  is_Some (node d q) → is_Some (node (update f p d) q).
Proof. intros. by apply node_update_is_Some. Qed.

Lemma stuck_spec h hs d :
  is_Some (node d hs) →
  get_style_height (stuck h hs d) hs = Some h ∧
  has_class (stuck h hs d) hs sticky_active = true ∧
  has_class (stuck h hs d) hs sticky_inactive = false.
Proof.
  intros Hhs. unfold stuck. split_and!.
  - rewrite get_style_height_classList_remove, get_style_height_classList_add.
    by apply get_style_height_style_set_height_eq.
  - rewrite has_class_remove_ne by auto.
    by apply has_class_add_eq, update_is_element.
  - apply has_class_remove_eq.
Qed.

Lemma unstuck_spec hs d :
  is_Some (node d hs) →
  has_class (unstuck hs d) hs sticky_active = false ∧
  get_style_height (unstuck hs d) hs = Some "" ∧
  (has_class d hs sticky_active = true →
   has_class (unstuck hs d) hs sticky_inactive = true).
Proof.
  intros Hhs. unfold unstuck. split_and!.
  - apply has_class_remove_eq.
  - rewrite get_style_height_classList_remove.
    apply get_style_height_style_set_height_eq.
    destruct (has_class d hs sticky_active); [|done].
    by apply update_is_element.
  - intros ->. rewrite has_class_remove_ne by auto.
    rewrite has_class_style_set_height. by apply has_class_add_eq.
Qed.

(** The inactive class survives a call at or below the cached height. *)
Lemma unstuck_keeps_inactive hs d :
  has_class d hs sticky_inactive = true →
  has_class (unstuck hs d) hs sticky_inactive = true.
Proof.
  intros Hin. unfold unstuck. rewrite has_class_remove_ne by auto.
  rewrite has_class_style_set_height.
  destruct (has_class d hs sticky_active); [|done].
  by apply has_class_add_mono.
Qed.

(** *** Repeating a listener *)

Lemma classList_add_idemp p c d :
  classList_add p c (classList_add p c d) = classList_add p c d.
Proof.
  apply update_idemp. intros [t cs a h]. unfold set_classList; cbn.
  f_equal. set_solver.
Qed.

Lemma classList_remove_idemp p c d :
  classList_remove p c (classList_remove p c d) = classList_remove p c d.
Proof.
  apply update_idemp. intros [t cs a h]. unfold set_classList; cbn.
  f_equal. set_solver.
Qed.

Lemma setAttribute_idemp p a v d :
  setAttribute p a v (setAttribute p a v d) = setAttribute p a v d.
Proof.
  apply update_idemp. intros [t cs m h]. unfold set_attributes; cbn.
  f_equal. apply insert_insert_eq.
Qed.

Lemma opened_idemp b body d : opened b body (opened b body d) = opened b body d.
Proof.
  unfold opened, set_trigger. destruct (mnavOpen b) as [o|];
    [|apply classList_add_idemp].
  unfold classList_add at 1, setAttribute at 2.
  rewrite update_comm by done.
  fold (setAttribute o aria "true"). fold (classList_add body "mnav-active").
  by rewrite classList_add_idemp, setAttribute_idemp.
Qed.

Lemma closed_idemp b body d : closed b body (closed b body d) = closed b body d.
Proof.
  unfold closed, set_trigger. destruct (mnavOpen b) as [o|];
    [|apply classList_remove_idemp].
  unfold classList_remove at 1, setAttribute at 2.
  rewrite update_comm by done.
  fold (setAttribute o aria "false"). fold (classList_remove body "mnav-active").
  by rewrite classList_remove_idemp, setAttribute_idemp.
Qed.

Lemma exec_openMobileNav_idemp b d :
  exec (openMobileNav b) (exec (openMobileNav b) d) = exec (openMobileNav b) d.
Proof.
  unfold exec. rewrite (openMobileNav_run b d).
  destruct (document_body d) as [body|] eqn:Hbody; cbn [snd].
  - rewrite openMobileNav_run,
      (same_markup_document_body _ _ _ (same_markup_opened b body d)), Hbody.
    apply opened_idemp.
  - by rewrite openMobileNav_run, Hbody.
Qed.

Lemma exec_closeMobileNav_idemp b d :
  exec (closeMobileNav b) (exec (closeMobileNav b) d) = exec (closeMobileNav b) d.
Proof.
  unfold exec. rewrite (closeMobileNav_run b d).
  destruct (document_body d) as [body|] eqn:Hbody; cbn [snd].
  - rewrite closeMobileNav_run,
      (same_markup_document_body _ _ _ (same_markup_closed b body d)), Hbody.
    apply closed_idemp.
  - by rewrite closeMobileNav_run, Hbody.
Qed.

Lemma exec_keydown_unset b key d :
  nav_active d = false → exec (keydown_listener b key) d = d.
Proof.
  unfold exec, nav_active. rewrite keydown_listener_run. intros Hoff.
  case_decide; [|done].
  destruct (document_body d) as [body|]; [|done]. by rewrite Hoff.
Qed.

Lemma exec_keydown_idemp b key d :
  exec (keydown_listener b key) (exec (keydown_listener b key) d) =
  exec (keydown_listener b key) d.
Proof.
  destruct (nav_active d) eqn:Hactive;
    [|by rewrite !(exec_keydown_unset b key d) by done].
  assert (exec (keydown_listener b key) d = d ∨
          nav_active (exec (keydown_listener b key) d) = false) as [Heq|Hoff];
    [|by rewrite !Heq|by apply exec_keydown_unset].
  unfold exec. rewrite keydown_listener_run.
  case_decide; [|by left]. unfold nav_active in Hactive.
  destruct (document_body d) as [body|] eqn:Hbody; [|done].
  rewrite Hactive. right. by apply nav_active_closed.
Qed.

Lemma stuck_idemp h hs d : stuck h hs (stuck h hs d) = stuck h hs d.
Proof.
  unfold stuck, classList_remove, classList_add, style_set_height.
  rewrite !update_compose. apply update_ext. intros [t cs a s].
  unfold set_classList, set_style_height; cbn. f_equal. set_solver.
Qed.

Lemma unstuck_idemp hs d : unstuck hs (unstuck hs d) = unstuck hs d.
Proof.
  unfold unstuck at 1.
  assert (has_class (unstuck hs d) hs sticky_active = false) as ->.
  { unfold unstuck. apply has_class_remove_eq. }
  unfold unstuck, classList_remove, style_set_height.
  rewrite !update_compose. apply update_ext. intros [t cs a s].
  unfold set_classList, set_style_height; cbn. f_equal. set_solver.
Qed.

(** Two clicks on a toggle put the expanded class of its item back. *)
Lemma toggle_twice_restores toggle item parent d :
  closest d item_class toggle = Some item →
  parentElement item = Some parent →
  let d2 := exec (toggle_listener toggle) (exec (toggle_listener toggle) d) in
  has_class d2 item expanded = has_class d item expanded.
Proof.
  intros Hitem Hparent d2.
  pose proof (same_markup_toggle_listener toggle d) as Hsm.
  assert (is_Some (node d item)) as Hnode.
  { apply closest_Some in Hitem as (_ & Hc & _).
    by eapply has_class_is_element. }
  assert (exec (toggle_listener toggle) d = toggled toggle item parent d) as E1.
  { unfold exec. by rewrite toggle_listener_run, Hitem, Hparent. }
  assert (d2 = toggled toggle item parent (toggled toggle item parent d)) as ->.
  { unfold d2. rewrite <- E1. unfold exec at 1.
    rewrite toggle_listener_run,
      (same_markup_closest _ _ _ _ _ Hsm), Hitem, Hparent by done.
    done. }
  rewrite has_class_toggled by (rewrite <- E1; by apply (sm_node _ _ _ Hsm)).
  rewrite has_class_toggled by done.
  rewrite !decide_True by done. apply negb_involutive.
Qed.

End HeaderFacts.

(** ** The script on the sample pages *)

Module Examples.
Import Dom Script Header Denotation Spec Samples.

Example site_bindings :
  bind_elements site =
    {| mnavOpen := Some [1; 1];
       mnavClose := Some [0; 3; 1];
       mnavOverlay := Some [2; 1];
       mnavToggles :=
         [toggle_A; toggle_A1; 1 :: 0 :: 2 :: item_A1; toggle_A2; toggle_B;
          1 :: 0 :: 2 :: item_B];
       mnavParentLinks := [link_A; 0 :: item_A1; 0 :: item_B] |}.
Proof. reflexivity. Qed.

Example site_body : document_body site = Some body.
Proof. reflexivity. Qed.

Example closest_of_toggle :
  closest site item_class toggle_A1 = Some item_A1 ∧
  closest site item_class menu = None.
Proof. by vm_compute. Qed.

Example expanded_below_menu :
  querySelectorAll
    (run (menu_listener (bind_elements site))
         [ToggleClicked toggle_A; ToggleClicked toggle_A1] site)
    menu expanded = [item_A; item_A1].
Proof. reflexivity. Qed.

Example load_site :
  (load 0 site).1 = Normal () ∧
  length (listeners (load 0 site).2) = 16 ∧
  get_style_height (document (load 100 site).2) header = Some "80px".
Proof. by vm_compute. Qed.

Example load_marker_only_site :
  load 0 marker_only_site =
    (Throw "TypeError",
     Page [OpenClick [1; 1]; DocumentKeydown] marker_only_site).
Proof. reflexivity. Qed.

Example open_then_escape :
  let b := bind_elements site in
  let opened := exec (open_listener b) site in
  nav_active opened = true ∧
  get_attribute opened [1; 1] aria = Some "true" ∧
  nav_active (exec (keydown_listener b "Escape") opened) = false ∧
  get_attribute (exec (keydown_listener b "Escape") opened) [1; 1] aria =
    Some "false".
Proof. by vm_compute. Qed.

End Examples.

(** ** The properties of the specification *)

Module Claims.
Import Dom Script Header Denotation Spec DomFacts HeaderFacts Samples.

(** C1.  Among the menu items that are children of one element, at most
    one carries the expanded class, and every run of menu events (clicks
    on toggles, clicks on parent links) keeps it so.  After a click on the
    toggle of an item, at most one of the item and its siblings is
    expanded, whatever the page was.  A click on the toggle of an expanded
    item removes the class from the item and leaves no expanded menu item
    among the item's siblings. *)
Theorem C1_at_most_one_expanded_sibling :
  (∀ b d parent evs,
      length (expanded_siblings d parent) ≤ 1 →
      length (expanded_siblings (run (menu_listener b) evs d) parent) ≤ 1) ∧
  (∀ d toggle item parent,
      closest d item_class toggle = Some item →
      parentElement item = Some parent →
      length (expanded_siblings (exec (toggle_listener toggle) d) parent) ≤ 1) ∧
  (∀ d toggle item parent,
      closest d item_class toggle = Some item →
      parentElement item = Some parent →
      has_class d item expanded = true →
      let d' := exec (toggle_listener toggle) d in
      has_class d' item expanded = false ∧ expanded_siblings d' parent = []).
Proof.
  split_and!.
  - intros b d parent evs.
    apply (run_menu_invariant (λ d, length (expanded_siblings d parent) ≤ 1)).
    intros d' toggle _. apply expanded_siblings_toggle_listener.
  - intros d toggle item parent Hitem Hparent.
    unfold exec. rewrite toggle_listener_run, Hitem, Hparent. cbn [snd].
    apply expanded_siblings_toggled_below; [|done..].
    apply closest_Some in Hitem as (_ & Hc & _).
    by eapply has_class_is_element.
  - intros d toggle item parent Hitem Hparent Hexp d'.
    assert (is_Some (node d item)) as Hnode by by eapply has_class_is_element.
    assert (d' = toggled toggle item parent d) as ->.
    { unfold d', exec. by rewrite toggle_listener_run, Hitem, Hparent. }
    split.
    + rewrite has_class_toggled by done. case_decide; [|done]. by rewrite Hexp.
    + apply elem_of_nil_inv. intros x [Hx Hin]%list_elem_of_filter.
      apply andb_True in Hx as [_ Hx]. apply Is_true_true in Hx.
      rewrite has_class_toggled in Hx by done.
      destruct (decide (x = item)) as [->|]; [by rewrite Hexp in Hx|].
      apply elem_of_childElements in Hin. destruct x as [|i x]; simplify_eq/=.
      by rewrite is_descendant_child in Hx.
Qed.

Lemma C1_witness :
  length (expanded_siblings
            (run (menu_listener (bind_elements site))
                 [ToggleClicked toggle_A; ParentLinkClicked (0 :: item_B);
                  ToggleClicked toggle_A1]
                 site) menu) ≤ 1 ∧
  expanded_siblings
    (exec (toggle_listener toggle_A) (exec (toggle_listener toggle_A) site))
    menu = [].
Proof.
  destruct C1_at_most_one_expanded_sibling as (Hrun & _ & Hclick). split.
  - apply Hrun. vm_compute. lia.
  - apply (Hclick (exec (toggle_listener toggle_A) site) toggle_A item_A);
      reflexivity.
Defined.

(** C2 (the code departs from it).  The loop that collapses the other
    items takes every expanded element below the parent of the clicked
    item, at any depth, not only the siblings of the item: a click on the
    toggle of an item removes the expanded class of an item nested inside
    it, and a click on the toggle of its sibling does the same. *)
Theorem C2_collapse_reaches_nested_items :
  let both_open :=
    run (menu_listener (bind_elements site))
        [ToggleClicked toggle_A; ToggleClicked toggle_A1] site in
  (has_class both_open item_A expanded = true ∧
   has_class both_open item_A1 expanded = true) ∧
  parentElement item_A1 ≠ parentElement item_A ∧
  has_class (exec (toggle_listener toggle_A) both_open) item_A1 expanded = false ∧
  has_class (exec (toggle_listener toggle_B) both_open) item_A1 expanded = false.
Proof. by vm_compute. Qed.

(** C3.  On a page that has a body and starts with the mobile-nav-open
    class unset, after every sequence of open-trigger clicks, close-trigger
    clicks, overlay clicks and Escape presses the class is on the body
    exactly when the most recent relevant action was an open-trigger click
    and no close action (a close-trigger click, an overlay click, or Escape
    pressed while the class was set) came after it. *)
Theorem C3_nav_flag_follows_most_recent_action b d evs :
  is_Some (document_body d) →
  nav_active d = false →
  nav_active (run (nav_listener b) evs d) = true ↔
  open_is_most_recent (trace b evs d).
Proof.
  intros Hbody Hoff. induction evs as [|ev evs IH] using rev_ind.
  - cbn. rewrite Hoff. split; [done|].
    intros (earlier & flag & later & Htr & _). by destruct earlier.
  - rewrite run_snoc, trace_snoc, nav_active_step
      by by rewrite document_body_nav_run.
    set (flag := nav_active (run (nav_listener b) evs d)) in *.
    destruct (decide (ev = OpenTriggerClick)) as [->|Hev].
    { split; [intros _|done].
      exists (trace b evs d), flag, []. split_and!; [done|constructor..]. }
    trans False; [by destruct ev|]. split; [done|].
    intros (earlier & flag' & later & Htr & Hrel & Hclose).
    destruct later as [|a later _] using rev_ind.
    + apply app_inj_tail in Htr as [_ [= ? _]]. done.
    + rewrite app_comm_cons, app_assoc in Htr.
      apply app_inj_tail in Htr as [Htr <-].
      apply Forall_app in Hrel as [Hrel Ha], Hclose as [Hclose _].
      apply (proj1 (Forall_singleton _ _)) in Ha.
      assert (flag = true) as Hflag.
      { apply IH. by exists earlier, flag', later. }
      rewrite Hflag in Ha. by destruct ev.
Qed.

Lemma C3_witness :
  nav_active (run (nav_listener (bind_elements site))
                  [OpenTriggerClick; EscapeKey; EscapeKey; OpenTriggerClick]
                  site) = true ↔
  open_is_most_recent
    (trace (bind_elements site)
           [OpenTriggerClick; EscapeKey; EscapeKey; OpenTriggerClick] site).
Proof.
  apply C3_nav_flag_follows_most_recent_action; [by eexists | reflexivity].
Defined.

(** C4.  A call of [handleStickyHeader] with the scroll offset above the
    cached height leaves the header with the cached height in pixels as
    its inline height, with the sticky-active class and without the
    sticky-inactive class.  A call with the offset not above the cached
    height leaves it without the sticky-active class and with the inline
    height cleared, and with the sticky-inactive class if sticky-active
    was there before the call. *)
Theorem C4_sticky_header_state {number : Type} (gt : number → number → bool)
    (number_to_string : number → string)
    (headerSticky : position) (height pageYOffset : number) (d : element) :
  is_Some (node d headerSticky) →
  let d' := exec (handleStickyHeader gt number_to_string headerSticky height
                                     pageYOffset) d in
  (gt pageYOffset height = true →
     get_style_height d' headerSticky = Some (number_to_string height +:+ "px") ∧
     has_class d' headerSticky sticky_active = true ∧
     has_class d' headerSticky sticky_inactive = false) ∧
  (gt pageYOffset height = false →
     has_class d' headerSticky sticky_active = false ∧
     get_style_height d' headerSticky = Some "" ∧
     (has_class d headerSticky sticky_active = true →
      has_class d' headerSticky sticky_inactive = true)).
Proof.
  intros Hhs d'. unfold d', exec. rewrite handleStickyHeader_run. cbn [snd].
  split; intros ->; [by apply stuck_spec | by apply unstuck_spec].
Qed.

Lemma C4_witness :
  let scrolled := exec (handleSticky header 80 81) site in
  let back := exec (handleSticky header 80 0) scrolled in
  (get_style_height scrolled header = Some "80px" ∧
   has_class scrolled header sticky_active = true ∧
   has_class scrolled header sticky_inactive = false) ∧
  (has_class back header sticky_active = false ∧
   get_style_height back header = Some "" ∧
   has_class back header sticky_inactive = true).
Proof.
  intros scrolled back. split.
  - destruct (C4_sticky_header_state Z.gtb pretty header 80%Z 81%Z site)
      as [H _]; [by eexists|].
    apply H. reflexivity.
  - destruct (C4_sticky_header_state Z.gtb pretty header 80%Z 0%Z scrolled)
      as [_ H]; [by eexists|].
    destruct H as (? & ? & H); [reflexivity|]. split_and!; [done..|].
    apply H. reflexivity.
Defined.

(** C5.  The load-time statements throw exactly when the sticky marker
    element is on the page and the sticky header is not.  Whether they
    throw or not, each control of the navigation has its listener exactly
    when the control itself is on the page, the keydown listener is
    registered, and the three sticky listeners are registered exactly when
    both sticky elements are on the page. *)
Theorem C5_init_guards_optional_elements {number : Type}
    (gt : number → number → bool) (number_to_string : number → string)
    (bounding_height : element → position → number) (pageYOffset : number)
    (d : element) :
  let load := init gt number_to_string bounding_height pageYOffset in
  let registered := listeners (exec load (Page [] d)) in
  (completes load (Page [] d) = false ↔ sticky_header_missing d) ∧
  (∀ o, OpenClick o ∈ registered ↔
        document_querySelector d "mnav__open" = Some o) ∧
  (∀ c, CloseClick c ∈ registered ↔
        document_querySelector d "mnav__close" = Some c) ∧
  (∀ o, OverlayClick o ∈ registered ↔
        document_querySelector d "mnav__overlay" = Some o) ∧
  (∀ toggle, ToggleClick toggle ∈ registered ↔
             has_class d toggle toggle_class = true) ∧
  (∀ link, LinkClick link ∈ registered ↔
           child_of_class d "mnav__menu__item--parent" link = true ∧
           has_class d link "mnav__menu__link" = true ∧
           get_attribute d link "href" = Some "javascript:;") ∧
  DocumentKeydown ∈ registered ∧
  (∀ eventType headerSticky height,
      WindowSticky eventType headerSticky height ∈ registered ↔
      eventType ∈ ["resize"; "scroll"; "load"] ∧
      is_Some (document_querySelector d "header__sticky-element") ∧
      document_querySelector d "header--sticky" = Some headerSticky ∧
      height = bounding_height d headerSticky).
Proof.
  intros load registered. split; [apply init_completes|].
  unfold registered, load. rewrite init_listeners.
  split_and!; intros; rewrite elem_of_app, elem_of_nav_listeners,
    elem_of_sticky_listeners; naive_solver.
Qed.

(** C6 as stated fails: on a page whose toggles all mirror their items,
    a click on the toggle of one item collapses its expanded sibling and
    writes ["false"] on the first toggle inside that sibling, which is the
    toggle of a nested item; the sibling's own toggle, placed after its
    submenu, keeps ["true"]. *)
Lemma C6_own_toggle_after_submenu_is_missed :
  let d' := exec (toggle_listener late_other_toggle) late_toggle_site in
  mirrors late_toggle_site = true ∧
  has_class d' late_toggle toggle_class = true ∧
  closest d' item_class late_toggle = Some late_item ∧
  has_class d' late_item expanded = false ∧
  get_attribute d' late_toggle aria = Some "true".
Proof. by vm_compute. Qed.

(** C6, amended.  On a page whose markup puts the toggle of each menu
    item before the toggles of the items nested in it, and which starts
    with the expanded class on menu items only and with every toggle
    mirroring its item, after every run of menu events the
    [aria-expanded] attribute of each toggle is ["true"] when the menu
    item the toggle belongs to carries the expanded class and ["false"]
    when it does not.  On any page, the toggle that is clicked mirrors its
    item after the click. *)
Theorem C6_aria_expanded_mirrors_expanded_class :
  (∀ d evs,
      menu_markup d = true → mirrors d = true →
      let d' := run (menu_listener (bind_elements d)) evs d in
      ∀ toggle item,
        has_class d' toggle toggle_class = true →
        closest d' item_class toggle = Some item →
        get_attribute d' toggle aria =
          Some (if has_class d' item expanded then "true" else "false")) ∧
  (∀ d toggle item parent,
      is_Some (node d toggle) →
      closest d item_class toggle = Some item →
      parentElement item = Some parent →
      let d' := exec (toggle_listener toggle) d in
      get_attribute d' toggle aria =
        Some (if has_class d' item expanded then "true" else "false")).
Proof.
  split.
  - intros d evs Hmarkup Hmirror d'. apply mirrors_spec.
    enough (same_markup expanded d d' ∧ menu_markup d' = true ∧
            mirrors d' = true) as (_ & _ & H) by done.
    apply (run_menu_invariant
             (λ d', same_markup expanded d d' ∧ menu_markup d' = true ∧
                    mirrors d' = true));
      [|by split; [apply same_markup_refl|]].
    intros d1 toggle Htoggle (Hsm & Hm1 & Hr1).
    apply elem_of_document_querySelectorAll in Htoggle.
    rewrite <- (sm_class _ _ _ Hsm) in Htoggle by done. split_and!.
    + eapply same_markup_trans; [done|apply same_markup_toggle_listener].
    + by apply menu_markup_toggle_listener.
    + by apply mirrors_toggle_listener.
  - intros d toggle item parent Htoggle Hitem Hparent d'.
    assert (d' = toggled toggle item parent d) as ->.
    { unfold d', exec. by rewrite toggle_listener_run, Hitem, Hparent. }
    apply clicked_toggle_mirrors; [done|].
    apply closest_Some in Hitem as (_ & Hc & _).
    by eapply has_class_is_element.
Qed.

Lemma C6_witness :
  let d' := run (menu_listener (bind_elements site))
                [ToggleClicked toggle_A1; ParentLinkClicked link_A;
                 ToggleClicked toggle_B] site in
  get_attribute d' toggle_A1 aria =
    Some (if has_class d' item_A1 expanded then "true" else "false") ∧
  get_attribute (exec (toggle_listener toggle_A) site) toggle_A aria =
    Some (if has_class (exec (toggle_listener toggle_A) site) item_A expanded
          then "true" else "false").
Proof.
  destruct C6_aria_expanded_mirrors_expanded_class as [Hrun Hclick]. split.
  - apply Hrun; reflexivity.
  - apply (Hclick site toggle_A item_A menu); [by eexists|reflexivity..].
Defined.




(** C8 as stated fails: a second click on a toggle does not leave the
    document the first click left. *)
Lemma C8_toggle_click_not_idempotent :
  exec (toggle_listener toggle_A) (exec (toggle_listener toggle_A) site) ≠
  exec (toggle_listener toggle_A) site.
Proof.
  intros H. apply (f_equal (λ d, has_class d item_A expanded)) in H.
  by vm_compute in H.
Qed.

(** C8, amended.  The open-trigger, close-trigger and overlay click
    listeners, the keydown listener and [handleStickyHeader] leave, run
    twice on the same trigger, the document they leave run once.  The
    submenu toggle listener does not: the second click puts the expanded
    class of the item back as it was before the first. *)
Theorem C8_listeners_idempotent_except_toggle (b : bindings) (d : element) :
  exec (open_listener b) (exec (open_listener b) d) = exec (open_listener b) d ∧
  exec (close_listener b) (exec (close_listener b) d) =
    exec (close_listener b) d ∧
  exec (overlay_listener b) (exec (overlay_listener b) d) =
    exec (overlay_listener b) d ∧
  (∀ key, exec (keydown_listener b key) (exec (keydown_listener b key) d) =
          exec (keydown_listener b key) d) ∧
  (∀ (number : Type) (gt : number → number → bool)
     (number_to_string : number → string) headerSticky height pageYOffset,
      let handler := handleStickyHeader gt number_to_string headerSticky height
                                        pageYOffset in
      exec handler (exec handler d) = exec handler d) ∧
  (∀ toggle item parent,
      closest d item_class toggle = Some item →
      parentElement item = Some parent →
      has_class (exec (toggle_listener toggle) (exec (toggle_listener toggle) d))
                item expanded =
      has_class d item expanded).
Proof.
  split_and!.
  - apply exec_openMobileNav_idemp.
  - apply exec_closeMobileNav_idemp.
  - apply exec_closeMobileNav_idemp.
  - intros key. apply exec_keydown_idemp.
  - intros number gt nts hs h y handler. unfold handler, exec.
    rewrite !handleStickyHeader_run. cbn [snd].
    destruct (gt y h); [apply stuck_idemp | apply unstuck_idemp].
  - intros toggle item parent. apply toggle_twice_restores.
Qed.

Lemma C8_witness :
  has_class (exec (toggle_listener toggle_A) (exec (toggle_listener toggle_A) site))
            item_A expanded =
  has_class site item_A expanded.
Proof.
  destruct (C8_listeners_idempotent_except_toggle (bind_elements site) site)
    as (_ & _ & _ & _ & _ & H).
  apply (H toggle_A item_A menu); reflexivity.
Defined.

(** C9.  The keydown listener is registered by the load-time statements
    on every page, even when they throw afterwards; and when the
    mobile-nav-open class is not on the body, an Escape press leaves the
    document as it is. *)
Theorem C9_escape_without_flag_changes_nothing {number : Type}
    (gt : number → number → bool) (number_to_string : number → string)
    (bounding_height : element → position → number) (pageYOffset : number)
    (page_at_load : element) (b : bindings) (d : element) :
  DocumentKeydown ∈
    listeners (exec (init gt number_to_string bounding_height pageYOffset)
                    (Page [] page_at_load)) ∧
  (nav_active d = false → exec (keydown_listener b "Escape") d = d).
Proof.
  split.
  - rewrite init_listeners. apply elem_of_app. left.
    by apply elem_of_nav_listeners.
  - apply exec_keydown_unset.
Qed.

Lemma C9_witness :
  exec (keydown_listener (bind_elements site) "Escape") site = site.
Proof.
  destruct (C9_escape_without_flag_changes_nothing
              Z.gtb pretty (λ _ _, 80%Z) 0%Z site (bind_elements site) site)
    as [_ H].
  apply H. reflexivity.
Defined.

(** C10.  Once the header carries the sticky-inactive class, it keeps it
    through every further call of [handleStickyHeader] whose scroll offset
    is not above the cached height; a call after which the class is gone
    had its offset above the cached height. *)
Theorem C10_sticky_inactive_persists {number : Type}
    (gt : number → number → bool) (number_to_string : number → string)
    (headerSticky : position) (height : number) (d : element) :
  has_class d headerSticky sticky_inactive = true →
  (∀ offsets,
      Forall (λ y, gt y height = false) offsets →
      has_class (run (handleStickyHeader gt number_to_string headerSticky height)
                     offsets d)
                headerSticky sticky_inactive = true) ∧
  (∀ pageYOffset,
      has_class (exec (handleStickyHeader gt number_to_string headerSticky
                                          height pageYOffset) d)
                headerSticky sticky_inactive = false →
      gt pageYOffset height = true).
Proof.
  intros Hin. split.
  - intros offsets Hall. revert d Hin.
    induction Hall as [|y offsets Hy _ IH]; intros d Hin; [done|].
    rewrite run_cons. apply IH. unfold exec.
    rewrite handleStickyHeader_run, Hy. by apply unstuck_keeps_inactive.
  - intros y. unfold exec. rewrite handleStickyHeader_run. cbn [snd].
    destruct (gt y height); [done|].
    by rewrite unstuck_keeps_inactive.
Qed.

Lemma C10_witness :
  let d := exec (handleSticky header 80 0) (exec (handleSticky header 80 81) site) in
  has_class (run (handleSticky header 80) [0; 40; 80]%Z d)
            header sticky_inactive = true.
Proof.
  intros d.
  destruct (C10_sticky_inactive_persists Z.gtb pretty header 80%Z d) as [H _];
    [reflexivity|].
  apply H. repeat constructor.
Defined.

End Claims.

(** ** What the listeners leave alone *)

Module FrameFacts.
Import Dom Script Header Denotation Spec Events DomFacts HeaderFacts.

Lemma props_agree_refl Cs As S pr : props_agree Cs As S pr pr.
Proof. by split_and!. Qed.

Lemma props_agree_trans Cs As S pr1 pr2 pr3 :
  props_agree Cs As S pr1 pr2 → props_agree Cs As S pr2 pr3 →
  props_agree Cs As S pr1 pr3.
Proof.
  intros (Hn & Hc & Ha & Hs) (Hn' & Hc' & Ha' & Hs'). split_and!.
  - congruence.
  - intros c Hcs. by rewrite Hc', Hc.
  - intros a Has. by rewrite Ha', Ha.
  - intros HS. by rewrite Hs', Hs.
Qed.

Lemma props_agree_mono Cs As (S : bool) Cs' As' (S' : bool) pr pr' :
  Cs ⊆ Cs' → As ⊆ As' → (S = true → S' = true) →
  props_agree Cs As S pr pr' → props_agree Cs' As' S' pr pr'.
Proof.
  intros HCs HAs HS (Hn & Hc & Ha & Hs). split_and!; [done|..].
  - intros c Hcs. apply Hc. set_solver.
  - intros a Has. apply Ha. set_solver.
  - intros ->. apply Hs. by destruct S; [discriminate HS|].
Qed.

Lemma agree_refl Cs As S d : agree Cs As S d d.
Proof.
  split_and!; [done..|]. intros q. destruct (props_at d q); constructor.
  apply props_agree_refl.
Qed.

Lemma agree_trans Cs As S d1 d2 d3 :
  agree Cs As S d1 d2 → agree Cs As S d2 d3 → agree Cs As S d1 d3.
Proof.
  intros (He & Hc & Hp) (He' & Hc' & Hp'). split_and!.
  - congruence.
  - intros q. by rewrite Hc', Hc.
  - intros q. specialize (Hp q). specialize (Hp' q).
    destruct Hp; inversion Hp'; subst; constructor.
    by eapply props_agree_trans.
Qed.

Lemma agree_mono Cs As (S : bool) Cs' As' (S' : bool) d d' :
  Cs ⊆ Cs' → As ⊆ As' → (S = true → S' = true) →
  agree Cs As S d d' → agree Cs' As' S' d d'.
Proof.
  intros HCs HAs HS (He & Hc & Hp). split_and!; [done..|].
  intros q. specialize (Hp q). destruct Hp; constructor.
  by eapply props_agree_mono.
Qed.

Lemma agree_update Cs As S f p d :
  (∀ pr, props_agree Cs As S pr (f pr)) → agree Cs As S d (update f p d).
Proof.
  intros Hf. split_and!.
  - apply elements_update.
  - intros q. apply childElements_update.
  - intros q. rewrite props_at_update.
    destruct (props_at d q) as [pr|]; case_decide; constructor;
      auto using props_agree_refl.
Qed.

Lemma agree_classList_add p c d : agree [c] [] false d (classList_add p c d).
Proof.
  apply agree_update. intros pr. split_and!; [done| |done..].
  intros c' Hc'; cbn. set_solver.
Qed.

Lemma agree_classList_remove p c d :
  agree [c] [] false d (classList_remove p c d).
Proof.
  apply agree_update. intros pr. split_and!; [done| |done..].
  intros c' Hc'; cbn. set_solver.
Qed.

Lemma agree_setAttribute p a v d : agree [] [a] false d (setAttribute p a v d).
Proof.
  apply agree_update. intros pr. split_and!; [done..| |done].
  intros a' Ha'; cbn. apply lookup_insert_ne. set_solver.
Qed.

Lemma agree_style_set_height p h d :
  agree [] [] true d (style_set_height p h d).
Proof. apply agree_update. intros pr. by split_and!. Qed.

(** *** What agreement gives the readers *)

Lemma agree_has_class Cs As S d d' q c :
  agree Cs As S d d' → c ∉ Cs → has_class d' q c = has_class d q c.
Proof.
  intros (_ & _ & Hp) Hc. unfold has_class. specialize (Hp q).
  destruct Hp as [pr pr' (_ & Hcs & _)|]; [|done].
  apply bool_decide_ext. by apply Hcs.
Qed.

Lemma agree_get_attribute Cs As S d d' q a :
  agree Cs As S d d' → a ∉ As → get_attribute d' q a = get_attribute d q a.
Proof.
  intros (_ & _ & Hp) Ha. unfold get_attribute. specialize (Hp q).
  destruct Hp as [pr pr' (_ & _ & Has & _)|]; [|done]. cbn. by apply Has.
Qed.

Lemma agree_get_style_height Cs As d d' q :
  agree Cs As false d d' → get_style_height d' q = get_style_height d q.
Proof.
  intros (_ & _ & Hp). unfold get_style_height. specialize (Hp q).
  destruct Hp as [pr pr' (_ & _ & _ & Hs)|]; [|done]. cbn. by rewrite Hs.
Qed.

Lemma agree_has_tag Cs As S d d' q t :
  agree Cs As S d d' → has_tag d' q t = has_tag d q t.
Proof.
  intros (_ & _ & Hp). unfold has_tag. specialize (Hp q).
  destruct Hp as [pr pr' (Hn & _)|]; [|done]. by rewrite Hn.
Qed.

Lemma agree_document_body Cs As S d d' :
  agree Cs As S d d' → document_body d' = document_body d.
Proof.
  intros H. apply document_body_ext.
  - intros. by eapply agree_has_tag.
  - apply H.
Qed.

Lemma agree_document_querySelectorAll Cs As S d d' c :
  agree Cs As S d d' → c ∉ Cs →
  document_querySelectorAll d' c = document_querySelectorAll d c.
Proof.
  intros H Hc. unfold document_querySelectorAll. rewrite (proj1 H).
  apply list_filter_iff. intros q. by rewrite (agree_has_class Cs As S d d').
Qed.

Lemma agree_document_querySelectorAll_child Cs As S d d' pc c :
  agree Cs As S d d' → pc ∉ Cs → c ∉ Cs →
  document_querySelectorAll_child d' pc c =
  document_querySelectorAll_child d pc c.
Proof.
  intros H Hpc Hc. unfold document_querySelectorAll_child. rewrite (proj1 H).
  apply list_filter_iff. intros q. unfold child_of_class.
  rewrite (agree_has_class Cs As S d d' q c) by done.
  destruct (parentElement q); [|done].
  by rewrite (agree_has_class Cs As S d d' _ pc).
Qed.

(** *** Every listener agrees with the document it started from *)

Lemma agree_add_in Cs As S p c d :
  c ∈ Cs → agree Cs As S d (classList_add p c d).
Proof.
  intros. eapply agree_mono; [| | |apply agree_classList_add];
    [set_solver..|done].
Qed.

Lemma agree_remove_in Cs As S p c d :
  c ∈ Cs → agree Cs As S d (classList_remove p c d).
Proof.
  intros. eapply agree_mono; [| | |apply agree_classList_remove];
    [set_solver..|done].
Qed.

Lemma agree_setAttribute_in Cs As S p a v d :
  a ∈ As → agree Cs As S d (setAttribute p a v d).
Proof.
  intros. eapply agree_mono; [| | |apply agree_setAttribute];
    [set_solver..|done].
Qed.

Lemma agree_style_in Cs As p h d :
  agree Cs As true d (style_set_height p h d).
Proof.
  eapply agree_mono; [| | |apply agree_style_set_height];
    [set_solver..|done].
Qed.

Ltac agree_chain :=
  repeat first
    [ apply agree_refl
    | apply agree_add_in; [set_solver]
    | apply agree_remove_in; [set_solver]
    | apply agree_setAttribute_in; [set_solver]
    | apply agree_style_in
    | eapply agree_trans; [|first
        [ apply agree_add_in; [set_solver]
        | apply agree_remove_in; [set_solver]
        | apply agree_setAttribute_in; [set_solver]
        | apply agree_style_in ]] ].

Lemma agree_collapse Cs As S item d s :
  expanded ∈ Cs → aria ∈ As → agree Cs As S d (collapse item d s).
Proof.
  intros. unfold collapse. case_decide; [|apply agree_refl]. cbn zeta.
  destruct (querySelector _ _ _); agree_chain.
Qed.

Lemma agree_collapse_all Cs As S item l d :
  expanded ∈ Cs → aria ∈ As → agree Cs As S d (foldl (collapse item) d l).
Proof.
  intros. revert d. induction l as [|s l IH]; intros d; [apply agree_refl|].
  cbn. eapply agree_trans; [by apply agree_collapse | apply IH].
Qed.

Lemma agree_flip Cs As S toggle item d :
  expanded ∈ Cs → aria ∈ As → agree Cs As S d (flip toggle item d).
Proof. intros. unfold flip. destruct (has_class d item expanded); agree_chain. Qed.

Lemma agree_toggle_listener Cs As S toggle d :
  expanded ∈ Cs → aria ∈ As →
  agree Cs As S d (exec (toggle_listener toggle) d).
Proof.
  intros. unfold exec. rewrite toggle_listener_run.
  destruct (closest d item_class toggle) as [item|]; [|apply agree_refl].
  destruct (parentElement item) as [parent|]; [|apply agree_refl].
  eapply agree_trans; [by apply agree_collapse_all | by apply agree_flip].
Qed.

Lemma agree_menu_listener Cs As S b ev d :
  expanded ∈ Cs → aria ∈ As →
  agree Cs As S d (exec (menu_listener b ev) d).
Proof.
  intros. destruct (menu_listener_cases b ev d) as [->|(t & _ & ->)];
    [apply agree_refl | by apply agree_toggle_listener].
Qed.

Lemma agree_set_trigger Cs As S b v d :
  aria ∈ As → agree Cs As S d (set_trigger b v d).
Proof. intros. unfold set_trigger. destruct (mnavOpen b); agree_chain. Qed.

Lemma agree_opened Cs As S b body d :
  "mnav-active" ∈ Cs → aria ∈ As → agree Cs As S d (opened b body d).
Proof.
  intros. eapply agree_trans; [by apply agree_add_in | by apply agree_set_trigger].
Qed.

Lemma agree_closed Cs As S b body d :
  "mnav-active" ∈ Cs → aria ∈ As → agree Cs As S d (closed b body d).
Proof.
  intros. eapply agree_trans;
    [by apply agree_remove_in | by apply agree_set_trigger].
Qed.

Lemma agree_keydown_listener Cs As S b key d :
  "mnav-active" ∈ Cs → aria ∈ As →
  agree Cs As S d (exec (keydown_listener b key) d).
Proof.
  intros. unfold exec. rewrite keydown_listener_run.
  case_decide; [|apply agree_refl].
  destruct (document_body d) as [body|]; [|apply agree_refl].
  destruct (has_class d body "mnav-active"); [|apply agree_refl].
  by apply agree_closed.
Qed.

Lemma agree_nav_listener Cs As S b ev d :
  "mnav-active" ∈ Cs → aria ∈ As →
  agree Cs As S d (exec (nav_listener b ev) d).
Proof.
  intros. destruct ev; try by apply (agree_keydown_listener _ _ _ b "Escape").
  all: unfold exec; rewrite nav_listener_run,
         ?openMobileNav_run, ?closeMobileNav_run;
       destruct (document_body d) as [body|]; try apply agree_refl.
  - by apply agree_opened.
  - by apply agree_closed.
  - by apply agree_closed.
Qed.

Lemma agree_stuck Cs As h hs d :
  sticky_active ∈ Cs → sticky_inactive ∈ Cs →
  agree Cs As true d (stuck h hs d).
Proof. intros. unfold stuck. agree_chain. Qed.

Lemma agree_unstuck Cs As hs d :
  sticky_active ∈ Cs → sticky_inactive ∈ Cs →
  agree Cs As true d (unstuck hs d).
Proof.
  intros. unfold unstuck. destruct (has_class d hs sticky_active); agree_chain.
Qed.

Section Window.

Context {number : Type}.
Variable gt : number → number → bool.
Variable number_to_string : number → string.

Lemma agree_handleStickyHeader Cs As hs h y d :
  sticky_active ∈ Cs → sticky_inactive ∈ Cs →
  agree Cs As true d
        (exec (handleStickyHeader gt number_to_string hs h y) d).
Proof.
  intros. unfold exec. rewrite handleStickyHeader_run. cbn [snd].
  destruct (gt y h); [by apply agree_stuck | by apply agree_unstuck].
Qed.

Lemma agree_dispatch b hs h ev d :
  agree script_classes [aria] true d
        (exec (dispatch gt number_to_string b hs h ev) d).
Proof.
  destruct ev; cbn [dispatch].
  - apply agree_nav_listener; set_solver.
  - apply agree_keydown_listener; set_solver.
  - apply agree_menu_listener; set_solver.
  - apply agree_handleStickyHeader; set_solver.
Qed.

Lemma agree_run b hs h evs d :
  agree script_classes [aria] true d
        (run (dispatch gt number_to_string b hs h) evs d).
Proof.
  revert d. induction evs as [|ev evs IH]; intros d; [apply agree_refl|].
  rewrite run_cons. eapply agree_trans; [apply agree_dispatch | apply IH].
Qed.

End Window.

(** *** Which elements a listener writes *)

Lemma get_attribute_toggled_other toggle item parent d u :
  u ≠ toggle →
  get_attribute (toggled toggle item parent d) u aria =
    if decide (Exists (collapses d item u) (querySelectorAll d parent expanded))
    then Some "false"
    else get_attribute d u aria.
Proof.
  intros Hu. unfold toggled, flip.
  destruct (has_class _ item expanded);
    rewrite get_attribute_setAttribute_ne by auto;
    rewrite ?get_attribute_classList_remove, ?get_attribute_classList_add;
    apply get_attribute_collapse_all.
Qed.

Lemma collapses_is_toggle d item u l :
  Exists (collapses d item u) l → has_class d u toggle_class = true.
Proof.
  intros (s & _ & _ & Hq)%Exists_exists.
  by apply querySelector_Some in Hq as [_ ?].
Qed.

Lemma props_at_update_ne f p q d : p ≠ q → props_at (update f p d) q = props_at d q.
Proof. intros. rewrite props_at_update. by case_decide. Qed.

Lemma props_at_stuck h hs q d : q ≠ hs → props_at (stuck h hs d) q = props_at d q.
Proof.
  intros. unfold stuck, classList_remove, classList_add, style_set_height.
  by rewrite !props_at_update_ne.
Qed.

Lemma props_at_unstuck hs q d : q ≠ hs → props_at (unstuck hs d) q = props_at d q.
Proof.
  intros. unfold unstuck, classList_remove, classList_add, style_set_height.
  rewrite !props_at_update_ne by done.
  destruct (has_class d hs sticky_active); [|done].
  by rewrite props_at_update_ne.
Qed.

Lemma has_class_opened b body d q c :
  q ≠ body → has_class (opened b body d) q c = has_class d q c.
Proof.
  intros. unfold opened. rewrite has_class_set_trigger.
  apply has_class_add_ne. auto.
Qed.

Lemma has_class_closed b body d q c :
  q ≠ body → has_class (closed b body d) q c = has_class d q c.
Proof.
  intros. unfold closed. rewrite has_class_set_trigger.
  apply has_class_remove_ne. auto.
Qed.

Lemma get_attribute_set_trigger_ne b v d q a :
  Some q ≠ mnavOpen b ∨ a ≠ aria →
  get_attribute (set_trigger b v d) q a = get_attribute d q a.
Proof.
  intros Hq. unfold set_trigger. destruct (mnavOpen b) as [o|]; [|done].
  apply get_attribute_setAttribute_ne. naive_solver.
Qed.

Lemma get_attribute_opened b body d q a :
  Some q ≠ mnavOpen b ∨ a ≠ aria →
  get_attribute (opened b body d) q a = get_attribute d q a.
Proof.
  intros. unfold opened.
  by rewrite get_attribute_set_trigger_ne, get_attribute_classList_add.
Qed.

Lemma get_attribute_closed b body d q a :
  Some q ≠ mnavOpen b ∨ a ≠ aria →
  get_attribute (closed b body d) q a = get_attribute d q a.
Proof.
  intros. unfold closed.
  by rewrite get_attribute_set_trigger_ne, get_attribute_classList_remove.
Qed.

(** The document a navigation event leaves: the one it found, or the one
    [openMobileNav] or [closeMobileNav] writes. *)
Lemma nav_listener_cases b ev d :
  exec (nav_listener b ev) d = d ∨
  ∃ body, document_body d = Some body ∧
          (exec (nav_listener b ev) d = opened b body d ∨
           exec (nav_listener b ev) d = closed b body d).
Proof.
  unfold exec. rewrite nav_listener_run.
  destruct ev;
    rewrite ?openMobileNav_run, ?closeMobileNav_run, ?keydown_escape_run;
    destruct (document_body d) as [body|]; cbn [snd]; eauto.
  destruct (has_class d body "mnav-active"); cbn [snd]; eauto.
Qed.

Lemma expanded_after_toggle_click d toggle item parent q :
  closest d item_class toggle = Some item →
  parentElement item = Some parent →
  has_class (exec (toggle_listener toggle) d) q expanded =
    if decide (q = item) then negb (has_class d item expanded)
    else if is_descendant q parent then false
    else has_class d q expanded.
Proof.
  intros Hitem Hparent. unfold exec.
  rewrite toggle_listener_run, Hitem, Hparent. cbn [snd].
  apply has_class_toggled.
  apply closest_Some in Hitem as (_ & Hc & _).
  by eapply has_class_is_element.
Qed.

(** *** One write after another *)

Lemma setAttribute_setAttribute p a v w d :
  setAttribute p a v (setAttribute p a w d) = setAttribute p a v d.
Proof.
  unfold setAttribute. rewrite update_compose. apply update_ext.
  intros [t cs m h]. unfold set_attributes; cbn. f_equal.
  apply insert_insert_eq.
Qed.

Lemma classList_remove_add p c d :
  classList_remove p c (classList_add p c d) = classList_remove p c d.
Proof.
  unfold classList_remove, classList_add. rewrite update_compose.
  apply update_ext. intros [t cs m h]. unfold set_classList; cbn. f_equal.
  set_solver.
Qed.

Lemma classList_add_remove p c d :
  classList_add p c (classList_remove p c d) = classList_add p c d.
Proof.
  unfold classList_remove, classList_add. rewrite update_compose.
  apply update_ext. intros [t cs m h]. unfold set_classList; cbn. f_equal.
  apply set_eq. intros x. destruct (decide (x = c)); set_solver.
Qed.

Lemma closed_opened b body d : closed b body (opened b body d) = closed b body d.
Proof.
  unfold closed, opened, set_trigger. destruct (mnavOpen b) as [o|];
    [|apply classList_remove_add].
  unfold classList_remove at 1, setAttribute at 2.
  rewrite update_comm by done.
  fold (setAttribute o aria "true"). fold (classList_remove body "mnav-active").
  by rewrite setAttribute_setAttribute, classList_remove_add.
Qed.

Lemma opened_closed b body d : opened b body (closed b body d) = opened b body d.
Proof.
  unfold closed, opened, set_trigger. destruct (mnavOpen b) as [o|];
    [|apply classList_add_remove].
  unfold classList_add at 1, setAttribute at 2.
  rewrite update_comm by done.
  fold (setAttribute o aria "false"). fold (classList_add body "mnav-active").
  by rewrite setAttribute_setAttribute, classList_add_remove.
Qed.


Lemma append_px_nonempty s : s +:+ "px" ≠ "".
Proof. by destruct s. Qed.

(** *** Every element is listed once *)

Lemma element_ind (P : element → Prop) :
  (∀ pr cs, Forall P cs → P (Element pr cs)) → ∀ e, P e.
Proof.
  intros H. fix IH 1. intros [pr cs]. apply H.
  revert cs. fix IHcs 1. intros [|c cs]; constructor; [apply IH | apply IHcs].
Qed.

Lemma NoDup_join_imap (ls : list (list (list nat))) k :
  Forall NoDup ls →
  NoDup (mjoin (imap (λ i ps, ((k + i) ::.) <$> ps) ls)).
Proof.
  intros Hls. revert k. induction Hls as [|ps ls Hps _ IH]; intros k;
    [constructor|].
  rewrite imap_cons. cbn [mjoin list_join]. apply NoDup_app. split_and!.
  - apply NoDup_fmap_2; [|done]. by intros ?? [=].
  - intros x (p & -> & _)%list_elem_of_fmap
      (l & Hx & Hl)%list_elem_of_join.
    apply elem_of_lookup_imap in Hl as (i & ps' & -> & _).
    apply list_elem_of_fmap in Hx as (p' & [= Hk _] & _). cbn in Hk. lia.
  - rewrite (imap_ext _ (λ i ps, ((S k + i) ::.) <$> ps)); [apply IH|].
    intros i ps' _. cbn. by rewrite Nat.add_succ_r.
Qed.

Lemma NoDup_paths e : NoDup (paths e).
Proof.
  induction e as [pr cs IH] using element_ind. cbn [paths children].
  apply NoDup_cons. split.
  - intros (l & Hx & Hl)%list_elem_of_join.
    apply elem_of_lookup_imap in Hl as (i & ps & -> & _).
    by apply list_elem_of_fmap in Hx as (p & [=] & _).
  - apply (NoDup_join_imap _ 0). by apply Forall_fmap.
Qed.

Lemma NoDup_elements d : NoDup (elements d).
Proof. apply NoDup_fmap_2; [apply _ | apply NoDup_paths]. Qed.

Lemma NoDup_option_list {A} (mx : option A) : NoDup (option_list mx).
Proof. destruct mx; cbn; [apply NoDup_singleton | constructor]. Qed.

Lemma NoDup_nav_listeners {number : Type} d :
  NoDup (nav_listeners (number := number) d).
Proof.
  unfold nav_listeners, bind_elements.
  cbn [mnavOpen mnavClose mnavOverlay mnavToggles mnavParentLinks].
  repeat (apply NoDup_app; split_and!);
    try apply NoDup_option_list; try apply NoDup_singleton;
    try (apply NoDup_fmap_2; [by intros ?? [=]|];
         repeat apply NoDup_filter; apply NoDup_elements).
  all: intros l Hl; rewrite ?not_elem_of_app; repeat split; revert Hl;
    rewrite ?elem_of_option_list, ?list_elem_of_fmap, ?list_elem_of_singleton;
    destruct (document_querySelector d "mnav__open"),
             (document_querySelector d "mnav__close"),
             (document_querySelector d "mnav__overlay"); cbn; naive_solver.
Qed.

Lemma NoDup_sticky_listeners {number : Type}
    (bounding_height : element → position → number) d :
  NoDup (sticky_listeners bounding_height d).
Proof.
  unfold sticky_listeners.
  destruct (document_querySelector d "header__sticky-element");
    [destruct (document_querySelector d "header--sticky")|];
    [|constructor..].
  apply NoDup_fmap_2; [by intros ?? [=]|].
  apply NoDup_ListNoDup. repeat constructor; cbn; naive_solver.
Qed.

End FrameFacts.

(** ** Further properties of the listeners *)

Module Extras.
Import Dom Script Header Denotation Spec Events.
Import DomFacts HeaderFacts FrameFacts Samples.

(** *** Submenu toggle *)

(** X1.  A click on a toggle that is in no menu item completes and
    changes nothing.  When the menu item found is the root element, which
    has no parent element, the listener throws a [TypeError] before it
    writes anything. *)
Theorem X1_toggle_click_outside_item (toggle : position) (d : element) :
  (closest d item_class toggle = None →
   toggle_listener toggle d = (Normal (), d)) ∧
  (closest d item_class toggle = Some [] →
   toggle_listener toggle d = (Throw "TypeError", d)).
Proof. rewrite toggle_listener_run. split; by intros ->. Qed.

Lemma X1_witness :
  toggle_listener menu site = (Normal (), site) ∧
  toggle_listener [0; 1] root_item_site = (Throw "TypeError", root_item_site).
Proof.
  split.
  - apply (X1_toggle_click_outside_item menu site). reflexivity.
  - apply (X1_toggle_click_outside_item [0; 1] root_item_site). reflexivity.
Defined.

(** X2.  After a click on the toggle of a menu item that has a parent
    element, the expanded class is flipped on the item, gone from every
    other element below the item's parent, and as before on every element
    that is not below the item's parent. *)
Theorem X2_toggle_click_expanded_classes (d : element)
    (toggle item parent q : position) :
  closest d item_class toggle = Some item →
  parentElement item = Some parent →
  has_class (exec (toggle_listener toggle) d) q expanded =
    if decide (q = item) then negb (has_class d item expanded)
    else if is_descendant q parent then false
    else has_class d q expanded.
Proof.
  apply expanded_after_toggle_click.
Qed.

Lemma X2_witness :
  has_class (exec (toggle_listener toggle_B) (exec (toggle_listener toggle_A) site))
            item_A expanded = false.
Proof.
  rewrite (X2_toggle_click_expanded_classes _ toggle_B item_B menu item_A);
    reflexivity.
Defined.

(** X3.  A click on a toggle changes nothing but the expanded class and
    [aria-expanded] attributes: the elements, their names, their other
    classes, their inline heights and their attributes other than
    [aria-expanded] and [class], the attribute that follows the class
    list, stay, and [aria-expanded] is written only on the clicked toggle
    and on elements that carry the toggle class. *)
Theorem X3_toggle_click_frame (toggle : position) (d : element)
    (q : position) :
  let d' := exec (toggle_listener toggle) d in
  elements d' = elements d ∧
  (∀ t, has_tag d' q t = has_tag d q t) ∧
  (∀ c, c ≠ expanded → has_class d' q c = has_class d q c) ∧
  (∀ a, a ≠ aria → a ≠ "class" →
        get_attribute d' q a = get_attribute d q a) ∧
  get_style_height d' q = get_style_height d q ∧
  (q ≠ toggle → has_class d q toggle_class = false →
   get_attribute d' q aria = get_attribute d q aria).
Proof.
  intros d'.
  assert (agree [expanded] [aria] false d d') as Hagree.
  { apply agree_toggle_listener; set_solver. }
  split_and!.
  - apply Hagree.
  - intros t. by eapply agree_has_tag.
  - intros c Hc. eapply agree_has_class; [done|set_solver].
  - intros a Ha _. eapply agree_get_attribute; [done|set_solver].
  - by eapply agree_get_style_height.
  - intros Hq Hnot. unfold d', exec. rewrite toggle_listener_run.
    destruct (closest d item_class toggle) as [item|]; [|done].
    destruct (parentElement item) as [parent|]; [|done]. cbn [snd].
    rewrite get_attribute_toggled_other by done.
    case_decide as Hex; [|done].
    apply collapses_is_toggle in Hex. congruence.
Qed.

Lemma X3_witness :
  let d' := exec (toggle_listener toggle_A) site in
  has_class d' toggle_B toggle_class = has_class site toggle_B toggle_class ∧
  get_attribute d' link_A "href" = get_attribute site link_A "href" ∧
  get_attribute d' link_A aria = get_attribute site link_A aria.
Proof.
  intros d'.
  destruct (X3_toggle_click_frame toggle_A site toggle_B) as (_ & _ & Hc & _).
  destruct (X3_toggle_click_frame toggle_A site link_A) as (_ & _ & _ & Ha & _ & Hl).
  split_and!; [by apply Hc | by apply Ha | by apply Hl].
Defined.

(** X4.  The collapse loop: every element that was expanded below the
    parent of the clicked item, other than the item, loses the expanded
    class, and the first toggle inside it gets [aria-expanded] ["false"],
    unless that toggle is the clicked one. *)
Theorem X4_toggle_click_collapses_others (d : element)
    (toggle item parent sibling siblingToggle : position) :
  closest d item_class toggle = Some item →
  parentElement item = Some parent →
  sibling ∈ querySelectorAll d parent expanded →
  sibling ≠ item →
  querySelector d sibling toggle_class = Some siblingToggle →
  siblingToggle ≠ toggle →
  let d' := exec (toggle_listener toggle) d in
  has_class d' sibling expanded = false ∧
  get_attribute d' siblingToggle aria = Some "false".
Proof.
  intros Hitem Hparent Hin Hne Hq Hst d'. split.
  - unfold d'. rewrite (expanded_after_toggle_click d toggle item parent);
      [|done..].
    rewrite decide_False by done.
    apply elem_of_querySelectorAll in Hin as [-> _]. done.
  - unfold d', exec. rewrite toggle_listener_run, Hitem, Hparent. cbn [snd].
    rewrite get_attribute_toggled_other by done.
    rewrite decide_True; [done|].
    apply Exists_exists. by exists sibling.
Qed.

Lemma X4_witness :
  let d := exec (toggle_listener toggle_A) site in
  has_class (exec (toggle_listener toggle_B) d) item_A expanded = false ∧
  get_attribute (exec (toggle_listener toggle_B) d) toggle_A aria = Some "false".
Proof.
  intros d.
  apply (X4_toggle_click_collapses_others d toggle_B item_B menu item_A toggle_A);
    try reflexivity; try discriminate.
  by apply elem_of_querySelectorAll.
Defined.

(** *** Mobile navigation *)

(** X5.  Without a body, [openMobileNav], [closeMobileNav] and an Escape
    press throw a [TypeError] and change nothing.  Any other key completes
    and changes nothing, on every document. *)
Theorem X5_nav_listeners_without_body (b : bindings) (d : element) :
  (document_body d = None →
   openMobileNav b d = (Throw "TypeError", d) ∧
   closeMobileNav b d = (Throw "TypeError", d) ∧
   keydown_listener b "Escape" d = (Throw "TypeError", d)) ∧
  (∀ key, key ≠ "Escape" → keydown_listener b key d = (Normal (), d)).
Proof.
  split.
  - intros Hbody.
    by rewrite openMobileNav_run, closeMobileNav_run, keydown_escape_run, Hbody.
  - intros key Hkey. rewrite keydown_listener_run. by case_decide.
Qed.

Lemma X5_witness :
  openMobileNav (bind_elements bodyless_site) bodyless_site =
    (Throw "TypeError", bodyless_site) ∧
  keydown_listener (bind_elements site) "Enter" site = (Normal (), site).
Proof.
  destruct (X5_nav_listeners_without_body (bind_elements bodyless_site) bodyless_site)
    as [H _].
  destruct (X5_nav_listeners_without_body (bind_elements site) site) as [_ H'].
  split; [by apply H | by apply H'].
Defined.

(** X6.  On a page with a body whose open trigger starts with
    [aria-expanded] telling whether the mobile-nav-open class is set, it
    still does after every sequence of navigation events. *)
Theorem X6_nav_trigger_mirrors_flag (b : bindings) (d : element)
    (evs : list nav_event) (mnavOpen_element : position) :
  is_Some (document_body d) →
  mnavOpen b = Some mnavOpen_element →
  is_Some (node d mnavOpen_element) →
  get_attribute d mnavOpen_element aria =
    Some (if nav_active d then "true" else "false") →
  let d' := run (nav_listener b) evs d in
  get_attribute d' mnavOpen_element aria =
    Some (if nav_active d' then "true" else "false").
Proof.
  intros Hbody Hb Ho Hmirror d'. unfold d'. clear d'.
  revert d Hbody Ho Hmirror. induction evs as [|ev evs IH];
    intros d Hbody Ho Hmirror; [done|].
  rewrite run_cons.
  assert (∀ v d0, is_Some (node d0 mnavOpen_element) →
            get_attribute (set_trigger b v d0) mnavOpen_element aria = Some v)
    as Hset.
  { intros v d0 Hd0. unfold set_trigger. rewrite Hb.
    by apply get_attribute_setAttribute_eq. }
  destruct (nav_listener_cases b ev d) as [->|(body & Hb' & [->| ->])].
  - by apply IH.
  - apply IH.
    + by rewrite (same_markup_document_body _ _ _ (same_markup_opened b body d)).
    + by apply (sm_node _ _ _ (same_markup_opened b body d)).
    + rewrite nav_active_opened by done. unfold opened.
      by apply Hset, update_is_element.
  - apply IH.
    + by rewrite (same_markup_document_body _ _ _ (same_markup_closed b body d)).
    + by apply (sm_node _ _ _ (same_markup_closed b body d)).
    + rewrite nav_active_closed by done. unfold closed.
      by apply Hset, update_is_element.
Qed.

Lemma X6_witness :
  let d' := run (nav_listener (bind_elements site))
                [OpenTriggerClick; EscapeKey; EscapeKey; OverlayTriggerClick;
                 OpenTriggerClick] site in
  get_attribute d' [1; 1] aria =
    Some (if nav_active d' then "true" else "false").
Proof.
  apply (X6_nav_trigger_mirrors_flag (bind_elements site) site _ [1; 1]);
    try reflexivity; by eexists.
Defined.

(** X7.  A navigation event changes nothing but the mobile-nav-open class
    of the body and the [aria-expanded] attribute of the open trigger:
    the elements, their names, their inline heights, every other class
    and every other attribute but [class], the attribute that follows the
    class list, stay. *)
Theorem X7_nav_event_frame (b : bindings) (ev : nav_event) (d : element)
    (q : position) :
  let d' := exec (nav_listener b ev) d in
  elements d' = elements d ∧
  (∀ t, has_tag d' q t = has_tag d q t) ∧
  get_style_height d' q = get_style_height d q ∧
  (∀ c, c ≠ "mnav-active" ∨ Some q ≠ document_body d →
        has_class d' q c = has_class d q c) ∧
  (∀ a, a ≠ "class" → a ≠ aria ∨ Some q ≠ mnavOpen b →
        get_attribute d' q a = get_attribute d q a).
Proof.
  intros d'.
  assert (agree ["mnav-active"] [aria] false d d') as Hagree.
  { apply agree_nav_listener; set_solver. }
  split_and!.
  - apply Hagree.
  - intros t. by eapply agree_has_tag.
  - by eapply agree_get_style_height.
  - intros c [Hc|Hq]; [eapply agree_has_class; [done|set_solver]|].
    unfold d'.
    destruct (nav_listener_cases b ev d) as [->|(body & Hb & [->| ->])];
      [done|apply has_class_opened|apply has_class_closed]; congruence.
  - intros a _ [Ha|Hq]; [eapply agree_get_attribute; [done|set_solver]|].
    unfold d'.
    destruct (nav_listener_cases b ev d) as [->|(body & Hb & [->| ->])];
      [done|apply get_attribute_opened|apply get_attribute_closed]; auto.
Qed.

Lemma X7_witness :
  let d' := exec (nav_listener (bind_elements site) OpenTriggerClick) site in
  has_class d' item_A "mnav-active" = has_class site item_A "mnav-active" ∧
  get_attribute d' toggle_A aria = get_attribute site toggle_A aria.
Proof.
  intros d'.
  destruct (X7_nav_event_frame (bind_elements site) OpenTriggerClick site item_A)
    as (_ & _ & _ & Hc & _).
  destruct (X7_nav_event_frame (bind_elements site) OpenTriggerClick site toggle_A)
    as (_ & _ & _ & _ & Ha).
  split; [apply Hc | apply Ha]; by try right.
Defined.

(** X8.  The last of an open and a close decides: closing after opening
    leaves what closing alone leaves, and opening after closing what
    opening alone leaves.  The two documents have the same elements, and
    each element has in both the same name, the same children, the same
    classes, the same inline height and the same attributes other than
    [class], the attribute that follows the class list. *)
Theorem X8_nav_last_action_wins (b : bindings) (d : element) (q : position) :
  let close_after_open := exec (closeMobileNav b) (exec (openMobileNav b) d) in
  let close_alone := exec (closeMobileNav b) d in
  let open_after_close := exec (openMobileNav b) (exec (closeMobileNav b) d) in
  let open_alone := exec (openMobileNav b) d in
  (elements close_after_open = elements close_alone ∧
   childElements close_after_open q = childElements close_alone q ∧
   (∀ t, has_tag close_after_open q t = has_tag close_alone q t) ∧
   (∀ c, has_class close_after_open q c = has_class close_alone q c) ∧
   get_style_height close_after_open q = get_style_height close_alone q ∧
   (∀ a, a ≠ "class" →
         get_attribute close_after_open q a = get_attribute close_alone q a)) ∧
  (elements open_after_close = elements open_alone ∧
   childElements open_after_close q = childElements open_alone q ∧
   (∀ t, has_tag open_after_close q t = has_tag open_alone q t) ∧
   (∀ c, has_class open_after_close q c = has_class open_alone q c) ∧
   get_style_height open_after_close q = get_style_height open_alone q ∧
   (∀ a, a ≠ "class" →
         get_attribute open_after_close q a = get_attribute open_alone q a)).
Proof.
  intros d1 d2 d3 d4.
  assert (d1 = d2 ∧ d3 = d4) as [-> ->]; [|done].
  unfold d1, d2, d3, d4, exec.
  rewrite (openMobileNav_run b d), (closeMobileNav_run b d).
  destruct (document_body d) as [body|] eqn:Hbody; cbn [snd].
  - rewrite closeMobileNav_run, openMobileNav_run,
      (same_markup_document_body _ _ _ (same_markup_opened b body d)),
      (same_markup_document_body _ _ _ (same_markup_closed b body d)), Hbody.
    cbn [snd]. split; [apply closed_opened | apply opened_closed].
  - by rewrite closeMobileNav_run, openMobileNav_run, Hbody.
Qed.

Lemma X8_witness :
  let b := bind_elements site in
  has_class (exec (closeMobileNav b) (exec (openMobileNav b) site)) body
            "mnav-active" = false ∧
  get_attribute (exec (openMobileNav b) (exec (closeMobileNav b) site))
                [1; 1] aria = Some "true".
Proof.
  intros b.
  destruct (X8_nav_last_action_wins b site body) as [(_ & _ & _ & Hc & _) _].
  destruct (X8_nav_last_action_wins b site [1; 1]) as [_ (_ & _ & _ & _ & _ & Ha)].
  split; [by rewrite Hc | by rewrite Ha].
Defined.

(** *** Sticky header *)

(** X9.  A call of [handleStickyHeader] writes the header element only,
    and there only the inline height and the two sticky classes: every
    other element keeps all its properties, and no attribute changes but
    [class] and [style], the attributes that follow the class list and
    the inline style. *)
Theorem X9_sticky_frame {number : Type} (gt : number → number → bool)
    (number_to_string : number → string)
    (headerSticky : position) (height pageYOffset : number) (d : element)
    (q : position) :
  let d' := exec (handleStickyHeader gt number_to_string headerSticky height
                                     pageYOffset) d in
  elements d' = elements d ∧
  (q ≠ headerSticky → props_at d' q = props_at d q) ∧
  (∀ t, has_tag d' q t = has_tag d q t) ∧
  (∀ c, c ≠ sticky_active → c ≠ sticky_inactive →
        has_class d' q c = has_class d q c) ∧
  (∀ a, a ≠ "class" → a ≠ "style" →
        get_attribute d' q a = get_attribute d q a).
Proof.
  intros d'.
  assert (agree [sticky_active; sticky_inactive] [] true d d') as Hagree.
  { apply agree_handleStickyHeader; set_solver. }
  split_and!.
  - apply Hagree.
  - intros Hq. unfold d', exec. rewrite handleStickyHeader_run. cbn [snd].
    destruct (gt pageYOffset height);
      [by apply props_at_stuck | by apply props_at_unstuck].
  - intros t. by eapply agree_has_tag.
  - intros c Hc Hc'. eapply agree_has_class; [done|set_solver].
  - intros a _ _. eapply agree_get_attribute; [done|set_solver].
Qed.

Lemma X9_witness :
  let d' := exec (handleSticky header 80 81) site in
  props_at d' body = props_at site body ∧
  has_class d' header "header--sticky" = has_class site header "header--sticky".
Proof.
  intros d'.
  destruct (X9_sticky_frame Z.gtb pretty header 80%Z 81%Z site body)
    as (_ & Hp & _).
  destruct (X9_sticky_frame Z.gtb pretty header 80%Z 81%Z site header)
    as (_ & _ & _ & Hc & _).
  split; [by apply Hp | by apply Hc].
Defined.



(** X11.  After every call of [handleStickyHeader] the header does not
    carry the sticky-active and the sticky-inactive class together, and
    its inline height is cleared exactly when it is without the
    sticky-active class. *)
Theorem X11_sticky_classes_exclusive {number : Type}
    (gt : number → number → bool) (number_to_string : number → string)
    (headerSticky : position) (height pageYOffset : number) (d : element) :
  let d' := exec (handleStickyHeader gt number_to_string headerSticky height
                                     pageYOffset) d in
  has_class d' headerSticky sticky_active &&
    has_class d' headerSticky sticky_inactive = false ∧
  (is_Some (node d headerSticky) →
   get_style_height d' headerSticky = Some "" ↔
   has_class d' headerSticky sticky_active = false).
Proof.
  intros d'. unfold d', exec. rewrite handleStickyHeader_run. cbn [snd].
  destruct (gt pageYOffset height); split.
  - unfold stuck. rewrite has_class_remove_eq. apply andb_false_r.
  - intros (Hs & -> & _)%(stuck_spec (number_to_string height +:+ "px")).
    rewrite Hs. split; [|done]. intros [= H]. by apply append_px_nonempty in H.
  - unfold unstuck. by rewrite has_class_remove_eq.
  - by intros (-> & -> & _)%unstuck_spec.
Qed.

Lemma X11_witness :
  let d' := exec (handleSticky header 80 0) (exec (handleSticky header 80 81) site) in
  get_style_height d' header = Some "" ↔ has_class d' header sticky_active = false.
Proof.
  intros d'.
  destruct (X11_sticky_classes_exclusive Z.gtb pretty header 80%Z 0%Z
              (exec (handleSticky header 80 81) site)) as [_ H].
  apply H. by eexists.
Defined.

(** *** The load-time statements *)

(** X12.  The load-time statements keep the listeners that were
    registered before, in their order, and append their own.  They leave
    the document as it is unless both sticky elements are on the page;
    then they leave what one call of [handleStickyHeader] leaves, with the
    height measured on the document as it was found. *)
Theorem X12_init_listeners_and_document {number : Type}
    (gt : number → number → bool) (number_to_string : number → string)
    (bounding_height : element → position → number) (pageYOffset : number)
    (registered : list listener) (d : element) :
  let load := init gt number_to_string bounding_height pageYOffset in
  let pg := exec load (Page registered d) in
  listeners pg = registered ++ listeners (exec load (Page [] d)) ∧
  document pg =
    match document_querySelector d "header__sticky-element",
          document_querySelector d "header--sticky" with
    | Some _, Some headerSticky =>
        exec (handleStickyHeader gt number_to_string headerSticky
                (bounding_height d headerSticky) pageYOffset) d
    | _, _ => d
    end.
Proof.
  intros load pg. unfold pg, load, exec. rewrite !init_run. cbn zeta.
  destruct (document_querySelector d "header__sticky-element");
    [destruct (document_querySelector d "header--sticky")|];
    cbn [snd listeners document app]; by rewrite <- ?app_assoc.
Qed.

(** X13.  The load-time statements register no listener twice: each
    toggle and each parent link gets one click listener, and the window
    one listener per event type. *)
Theorem X13_init_registers_each_listener_once {number : Type}
    (gt : number → number → bool) (number_to_string : number → string)
    (bounding_height : element → position → number) (pageYOffset : number)
    (d : element) :
  NoDup (listeners (exec (init gt number_to_string bounding_height pageYOffset)
                         (Page [] d))).
Proof.
  rewrite init_listeners. apply NoDup_app. split_and!.
  - apply NoDup_nav_listeners.
  - intros l Hnav Hsticky.
    rewrite (elem_of_nav_listeners gt number_to_string bounding_height)
      in Hnav.
    rewrite (elem_of_sticky_listeners gt number_to_string) in Hsticky.
    by destruct l.
  - apply NoDup_sticky_listeners.
Qed.

(** *** All listeners together *)

(** X14.  No event changes what the load-time queries find: after every
    sequence of events the five bindings, the two sticky elements and the
    listeners of the navigation are what they were on the page at load. *)
Theorem X14_load_time_references_stay_valid {number : Type}
    (gt : number → number → bool) (number_to_string : number → string)
    (b : bindings) (headerSticky : position) (height : number)
    (evs : list event) (d : element) :
  let d' := run (dispatch gt number_to_string b headerSticky height) evs d in
  bind_elements d' = bind_elements d ∧
  document_querySelector d' "header__sticky-element" =
    document_querySelector d "header__sticky-element" ∧
  document_querySelector d' "header--sticky" =
    document_querySelector d "header--sticky" ∧
  nav_listeners (number := number) d' = nav_listeners d.
Proof.
  intros d'.
  pose proof (agree_run gt number_to_string b headerSticky height evs d)
    as Hagree. fold d' in Hagree.
  assert (∀ c, c ∉ script_classes →
            document_querySelectorAll d' c = document_querySelectorAll d c)
    as Hall.
  { intros c Hc. by eapply agree_document_querySelectorAll. }
  assert (∀ c, c ∉ script_classes →
            document_querySelector d' c = document_querySelector d c) as Hone.
  { intros c Hc. unfold document_querySelector. by rewrite Hall. }
  assert (bind_elements d' = bind_elements d) as Hbind.
  { unfold bind_elements. rewrite !Hone, Hall by set_solver.
    by rewrite (agree_document_querySelectorAll_child _ _ _ d d')
      by (done || set_solver). }
  split_and!; [done|apply Hone; set_solver..|].
  unfold nav_listeners. rewrite Hbind. do 6 f_equal.
  apply list_filter_iff. intros link.
  by rewrite (agree_get_attribute _ _ _ d d') by (done || set_solver).
Qed.

(** X15.  The three features do not write each other's state: only
    navigation events and key presses change the mobile-nav-open flag,
    only menu events change an expanded class, and only window events
    change a sticky class or an inline height. *)
Theorem X15_features_do_not_interfere {number : Type}
    (gt : number → number → bool) (number_to_string : number → string)
    (b : bindings) (headerSticky : position) (height : number)
    (ev : event) (d : element) :
  let d' := exec (dispatch gt number_to_string b headerSticky height ev) d in
  match ev with
  | Nav _ | Keydown _ =>
      (∀ q, has_class d' q expanded = has_class d q expanded) ∧
      (∀ q, has_class d' q sticky_active = has_class d q sticky_active ∧
            has_class d' q sticky_inactive = has_class d q sticky_inactive ∧
            get_style_height d' q = get_style_height d q)
  | Menu _ =>
      nav_active d' = nav_active d ∧
      (∀ q, has_class d' q sticky_active = has_class d q sticky_active ∧
            has_class d' q sticky_inactive = has_class d q sticky_inactive ∧
            get_style_height d' q = get_style_height d q)
  | Window _ =>
      nav_active d' = nav_active d ∧
      (∀ q, has_class d' q expanded = has_class d q expanded)
  end.
Proof.
  intros d'.
  assert (∀ Cs As S, agree Cs As S d d' → "mnav-active" ∉ Cs →
            nav_active d' = nav_active d) as Hnav.
  { intros Cs As S H Hc. unfold nav_active.
    rewrite (agree_document_body _ _ _ _ _ H).
    destruct (document_body d); [|done]. by eapply agree_has_class. }
  destruct ev; cbn [dispatch] in d'.
  - assert (agree ["mnav-active"] [aria] false d d') as H
      by (apply agree_nav_listener; set_solver).
    split; [intros q|intros q; split_and!];
      try (eapply agree_has_class; [done|set_solver]).
    by eapply agree_get_style_height.
  - assert (agree ["mnav-active"] [aria] false d d') as H
      by (apply agree_keydown_listener; set_solver).
    split; [intros q|intros q; split_and!];
      try (eapply agree_has_class; [done|set_solver]).
    by eapply agree_get_style_height.
  - assert (agree [expanded] [aria] false d d') as H
      by (apply agree_menu_listener; set_solver).
    split; [eapply Hnav; [done|set_solver]|]. intros q. split_and!;
      try (eapply agree_has_class; [done|set_solver]).
    by eapply agree_get_style_height.
  - assert (agree [sticky_active; sticky_inactive] [] true d d') as H
      by (apply agree_handleStickyHeader; set_solver).
    split; [eapply Hnav; [done|set_solver]|]. intros q.
    eapply agree_has_class; [done|set_solver].
Qed.

(** X16.  A group of sibling menu items with at most one expanded item
    keeps at most one through every sequence of events of any kind. *)
Theorem X16_at_most_one_expanded_sibling_all_events {number : Type}
    (gt : number → number → bool) (number_to_string : number → string)
    (b : bindings) (headerSticky : position) (height : number)
    (evs : list event) (d : element) (parent : position) :
  length (expanded_siblings d parent) ≤ 1 →
  length (expanded_siblings
            (run (dispatch gt number_to_string b headerSticky height) evs d)
            parent) ≤ 1.
Proof.
  revert d. induction evs as [|ev evs IH]; intros d Hd; [done|].
  rewrite run_cons. apply IH.
  assert (∀ d', agree ["mnav-active"; sticky_active; sticky_inactive] [aria]
                      true d d' →
                expanded_siblings d' parent = expanded_siblings d parent)
    as Hsame.
  { intros d' H. unfold expanded_siblings. rewrite (proj1 (proj2 H)).
    apply list_filter_iff. intros q.
    by rewrite !(agree_has_class _ _ _ d d') by (done || set_solver). }
  destruct ev; cbn [dispatch].
  - rewrite Hsame; [done|]. apply agree_nav_listener; set_solver.
  - rewrite Hsame; [done|]. apply agree_keydown_listener; set_solver.
  - destruct (menu_listener_cases b ev d) as [->|(t & _ & ->)]; [done|].
    by apply expanded_siblings_toggle_listener.
  - rewrite Hsame; [done|]. apply agree_handleStickyHeader; set_solver.
Qed.

Lemma X16_witness :
  length (expanded_siblings
            (run (dispatch Z.gtb pretty (bind_elements site) header 80%Z)
                 [Menu (ToggleClicked toggle_A); Nav OpenTriggerClick;
                  Window 200%Z; Menu (ParentLinkClicked (0 :: item_B));
                  Keydown "Escape"] site)
            menu) ≤ 1.
Proof.
  apply X16_at_most_one_expanded_sibling_all_events. vm_compute. lia.
Defined.

End Extras.
